(** * Benchmark data generator: xorshift64* stream and workload builder

    A shallow embedding of [generate_data.py]: the [XorShift64Star] class and
    the [generate_data] function, with the properties of the generator and of
    the produced workload.

    Python integers are unbounded, so every integer is a [Z] and the only
    reduction to 64 bits is the one the source writes ([& 0xFFFF...]).
    Python floats are IEEE binary64 values, modelled by Rocq's primitive
    floats.  The generator object is mutated in place by every draw; here it
    is threaded through a state-and-exception monad. *)

From Stdlib Require Import ZArith List Lia Bool Ascii Permutation FinFun.
From Stdlib Require Import Floats.PrimFloat Numbers.Cyclic.Int63.Uint63.
Import ListNotations.
Local Open Scope Z_scope.

(** ** Python runtime: exceptions, integer ranges, list indexing *)

Inductive PyExc : Type :=
| ZeroDivisionError
| IndexError.

Inductive result (A : Type) : Type :=
| Ok (a : A)
| Raise (e : PyExc).
Arguments Ok {A} a.
Arguments Raise {A} e.

(** [range(n)]: empty when [n <= 0]. *)
Definition range (n : Z) : list Z :=
  map Z.of_nat (seq 0 (Z.to_nat n)).

(** [range(start, stop, -1)]: [start, start-1, ..., stop+1]. *)
Definition range_down (start stop : Z) : list Z :=
  map (fun k => start - Z.of_nat k) (seq 0 (Z.to_nat (start - stop))).

(** [a % b] raises on a zero divisor; otherwise the result has the sign of
    the divisor, which is [Z.modulo]. *)
Definition py_mod (a b : Z) : result Z :=
  if b =? 0 then Raise ZeroDivisionError else Ok (a mod b).

(** Position addressed by a Python index: negative indices count from the
    end, anything outside [-len, len) is an [IndexError]. *)
Definition py_index {A} (l : list A) (i : Z) : result nat :=
  let len := Z.of_nat (length l) in
  if (0 <=? i) && (i <? len) then Ok (Z.to_nat i)
  else if (- len <=? i) && (i <? 0) then Ok (Z.to_nat (len + i))
  else Raise IndexError.

Fixpoint list_set {A} (l : list A) (k : nat) (x : A) : list A :=
  match l, k with
  | [], _ => []
  | _ :: t, O => x :: t
  | h :: t, S k' => h :: list_set t k' x
  end.

(** [l[i]] *)
Definition py_getitem {A} (l : list A) (i : Z) : result A :=
  match py_index l i with
  | Ok k => match nth_error l k with
            | Some x => Ok x
            | None => Raise IndexError
            end
  | Raise e => Raise e
  end.

(** [l[i] = x] *)
Definition py_setitem {A} (l : list A) (i : Z) (x : A) : result (list A) :=
  match py_index l i with
  | Ok k => Ok (list_set l k x)
  | Raise e => Raise e
  end.

(** ** The generator object *)

(** Ghost record of the method calls made on a generator, one event per
    call, appended when the call returns (so the event of a nested call
    precedes the event of its caller).  The source keeps no such log; it is
    used to state how many draws an operation makes. *)
Inductive Event : Type :=
| EvU64 (ret : Z)
| EvUsize (bound ret : Z)
| EvF64 (ret : float)
| EvChar (ret : ascii).

Record XorShift64Star : Type := mkRng {
  state : Z;
  log : list Event
}.

(** Computations that read and update the generator and may raise. *)
Definition M (A : Type) : Type := XorShift64Star -> result (A * XorShift64Star).

Definition ret {A} (a : A) : M A := fun r => Ok (a, r).

Definition bind {A B} (m : M A) (k : A -> M B) : M B :=
  fun r => match m r with
           | Ok (a, r') => k a r'
           | Raise e => Raise e
           end.

Definition lift {A} (x : result A) : M A :=
  fun r => match x with
           | Ok a => Ok (a, r)
           | Raise e => Raise e
           end.

Definition emit (e : Event) : M unit :=
  fun r => Ok (tt, mkRng (state r) (log r ++ [e])).

Declare Scope gen_scope.
Delimit Scope gen_scope with gen.
Notation "x <- m ;; k" := (bind m (fun x => k))
  (at level 61, m at next level, right associativity) : gen_scope.
Notation "m ;;; k" := (bind m (fun _ => k))
  (at level 61, right associativity) : gen_scope.
Local Open Scope gen_scope.

(** [for x in xs: s = body(x, s)] *)
Fixpoint for_each {A S} (xs : list A) (body : A -> S -> M S) (s : S) : M S :=
  match xs with
  | [] => ret s
  | x :: xs' => s' <- body x s ;; for_each xs' body s'
  end.

(** [[f(x) for x in xs]] *)
Fixpoint comprehension {A B} (xs : list A) (f : A -> M B) : M (list B) :=
  match xs with
  | [] => ret []
  | x :: xs' => y <- f x ;; ys <- comprehension xs' f ;; ret (y :: ys)
  end.

Definition MASK64 : Z := 0xFFFFFFFFFFFFFFFF.
Definition STAR : Z := 0x2545F4914F6CDD1D.

(** [__init__]: [self.state = seed if seed != 0 else 1] *)
Definition XorShift64Star_init (seed : Z) : XorShift64Star :=
  mkRng (if negb (seed =? 0) then seed else 1) [].

(** The state update of [next_u64], exactly as the source orders it: the
    three shift-and-xor steps run on unbounded integers and the single
    [& MASK64] comes after the last of them. *)
Definition advance (x : Z) : Z :=
  let x := Z.lxor x (Z.shiftr x 12) in
  let x := Z.lxor x (Z.shiftl x 25) in
  let x := Z.lxor x (Z.shiftr x 27) in
  Z.land x MASK64.

Definition next_u64 : M Z :=
  fun r =>
    let x := advance (state r) in
    let out := Z.land (x * STAR) MASK64 in
    Ok (out, mkRng x (log r ++ [EvU64 out])).

(** On the second branch [bound > 1], so [%] cannot raise there. *)
Definition next_usize (bound : Z) : M Z :=
  if bound <=? 1 then
    emit (EvUsize bound 0) ;;; ret 0
  else
    d <- next_u64 ;;
    let v := d mod bound in
    emit (EvUsize bound v) ;;; ret v.

(** [float(self.next_u64() >> 11) * (1.0 / float(1 << 53))].  Both integers
    are below [2^63], so the conversion from [Z] through [Uint63] is exact. *)
Definition float_of_int (k : Z) : float := PrimFloat.of_uint63 (Uint63.of_Z k).

(** The value [next_f64] derives from the draw [d]. *)
Definition unit_float (d : Z) : float :=
  PrimFloat.mul (float_of_int (Z.shiftr d 11))
                (PrimFloat.div 1%float (float_of_int (Z.shiftl 1 53))).

Definition next_f64 : M float :=
  d <- next_u64 ;;
  let v := unit_float d in
  emit (EvF64 v) ;;; ret v.

(** [chr(ord('a') + (self.next_u64() % 26))] *)
Definition rand_char : M ascii :=
  d <- next_u64 ;;
  let c := ascii_of_N (Z.to_N (Z.of_N (N_of_ascii "a") + d mod 26)) in
  emit (EvChar c) ;;; ret c.

(** [array[i], array[j] = array[j], array[i]]: the right-hand side is read
    first ([array[j]], then [array[i]]), then position [i] is written, then
    position [j]. *)
Definition swap_items {A} (array : list A) (i j : Z) : result (list A) :=
  match py_getitem array j with
  | Raise e => Raise e
  | Ok aj =>
    match py_getitem array i with
    | Raise e => Raise e
    | Ok ai =>
      match py_setitem array i aj with
      | Raise e => Raise e
      | Ok array1 => py_setitem array1 j ai
      end
    end
  end.

(** [shuffle] mutates its argument; the mutated list is returned here. *)
Definition shuffle {A} (array : list A) : M (list A) :=
  for_each (range_down (Z.of_nat (length array) - 1) 0)
    (fun i array =>
       j <- next_usize (i + 1) ;;
       lift (swap_items array i j))
    array.

(** ** The workload builder *)

(** The module-level configuration constants, gathered in a record so that
    the builder can be studied at other values than the committed ones. *)
Record Config : Type := mkConfig {
  N : Z;
  SEED : Z;
  UPDATE_COUNT : Z;
  REMOVE_COUNT : Z;
  REMOVE_HITS : Z;
  REMOVE_MISSES : Z;
  SEARCH_COUNT : Z;
  SEARCH_HIT_RATE : float
}.

(** The constants as committed in the source. *)
Definition source_config : Config :=
  mkConfig 1000000 0xDEADBEEFCAFEBABE 500000 750000 500000 250000 1000000 0.5%float.

(** The dictionary returned by [generate_data]. *)
Record Workload : Type := mkWorkload {
  insert_keys : list Z;
  insert_data : list ascii;
  update_indices : list Z;
  update_data : list ascii;
  remove_is_hit : list bool;
  remove_indices : list Z;
  remove_miss_keys : list Z;
  search_is_hit : list bool;
  search_indices : list Z;
  search_miss_keys : list Z;
  n : Z;
  updates : Z;
  removes : Z;
  searches : Z
}.

(** The three lists a remove or search loop appends to. *)
Record OpSeries : Type := mkSeries {
  is_hit : list bool;
  indices : list Z;
  miss_keys : list Z
}.

Definition append3 (s : OpSeries) (h : bool) (i k : Z) : OpSeries :=
  mkSeries (is_hit s ++ [h]) (indices s ++ [i]) (miss_keys s ++ [k]).

(** [miss_key = N + (rng.next_u64() % N) + 1] *)
Definition draw_miss_key (c : Config) : M Z :=
  d <- next_u64 ;;
  m <- lift (py_mod d (N c)) ;;
  ret (N c + m + 1).

(** Body of the loop [for _ in range(REMOVE_HITS)]. *)
Definition remove_hit_step (c : Config) (s : OpSeries) : M OpSeries :=
  idx <- next_usize (N c) ;;
  ret (append3 s true idx 0).

(** Body of the loop [for _ in range(REMOVE_MISSES)]. *)
Definition remove_miss_step (c : Config) (s : OpSeries) : M OpSeries :=
  miss_key <- draw_miss_key c ;;
  ret (append3 s false 0 miss_key).

(** Body of the loop [for _ in range(SEARCH_COUNT)]. *)
Definition search_step (c : Config) (s : OpSeries) : M OpSeries :=
  f <- next_f64 ;;
  let hit := PrimFloat.ltb f (SEARCH_HIT_RATE c) in
  if hit then
    idx <- next_usize (N c) ;;
    ret (append3 s hit idx 0)
  else
    miss_key <- draw_miss_key c ;;
    ret (append3 s hit 0 miss_key).

(** [generate_data], keeping the generator it used next to the result. *)
Definition generate_data_run (c : Config) : result (Workload * XorShift64Star) :=
  (let insert_keys := range (N c) in
   insert_data <- comprehension (range (N c)) (fun _ => rand_char) ;;
   order <- shuffle (range (N c)) ;;
   shuffled_keys <- comprehension (range (N c))
                      (fun i => oi <- lift (py_getitem order i) ;;
                                lift (py_getitem insert_keys oi)) ;;
   update_indices <- comprehension (range (UPDATE_COUNT c))
                       (fun _ => next_usize (N c)) ;;
   update_data <- comprehension (range (UPDATE_COUNT c)) (fun _ => rand_char) ;;
   rem <- for_each (range (REMOVE_HITS c)) (fun _ => remove_hit_step c)
            (mkSeries [] [] []) ;;
   rem <- for_each (range (REMOVE_MISSES c)) (fun _ => remove_miss_step c) rem ;;
   sea <- for_each (range (SEARCH_COUNT c)) (fun _ => search_step c)
            (mkSeries [] [] []) ;;
   ret (mkWorkload shuffled_keys insert_data update_indices update_data
          (is_hit rem) (indices rem) (miss_keys rem)
          (is_hit sea) (indices sea) (miss_keys sea)
          (N c) (UPDATE_COUNT c) (REMOVE_COUNT c) (SEARCH_COUNT c)))
    (XorShift64Star_init (SEED c)).

Definition generate_data (c : Config) : result Workload :=
  match generate_data_run c with
  | Ok (w, _) => Ok w
  | Raise e => Raise e
  end.

(** ** Notions used in the statements *)

(** The xorshift64 recurrence on a 64-bit word, every step reduced modulo
    [2^64] (the reference the generator is documented to follow). *)
Definition xorshift64_reference (x : Z) : Z :=
  let x := (Z.lxor x (Z.shiftr x 12)) mod 2 ^ 64 in
  let x := (Z.lxor x (Z.shiftl x 25)) mod 2 ^ 64 in
  let x := (Z.lxor x (Z.shiftr x 27)) mod 2 ^ 64 in
  x mod 2 ^ 64.

(** [k] successive calls of [next_u64], with their results. *)
Definition next_u64_seq (k : nat) : M (list Z) :=
  comprehension (repeat tt k) (fun _ => next_u64).

(** The state of a generator after [k] calls of [next_u64]. *)
Definition state_after (k : nat) (r : XorShift64Star) : Z :=
  match next_u64_seq k r with
  | Ok (_, r') => state r'
  | Raise _ => 0
  end.

Definition is_usize_event (e : Event) : bool :=
  match e with EvUsize _ _ => true | _ => false end.

Definition is_u64_event (e : Event) : bool :=
  match e with EvU64 _ => true | _ => false end.

(** Exchange of two positions of a list (total: out of range it does
    nothing). *)
Definition swap_at {A} (l : list A) (i j : nat) : list A :=
  match nth_error l i, nth_error l j with
  | Some a, Some b => list_set (list_set l i b) j a
  | _, _ => l
  end.

(** A Fisher-Yates pass that exchanges positions [i] and [j] for each pair
    [(i, j)] of a list of pairs, in order. *)
Definition apply_swaps {A} (ijs : list (Z * Z)) (l : list A) : list A :=
  fold_left (fun a ij => swap_at a (Z.to_nat (fst ij)) (Z.to_nat (snd ij))) ijs l.

(** The events of one call [next_usize(bound)] that returned [v]. *)
Definition usize_call (bound v : Z) (seg : list Event) : Prop :=
  if bound <=? 1
  then v = 0 /\ seg = [EvUsize bound 0]
  else exists d, v = d mod bound /\ seg = [EvU64 d; EvUsize bound v].

(** The entries of a series: the three parallel lists read by position. *)
Definition zip3 (hs : list bool) (ids ks : list Z) : list (bool * (Z * Z)) :=
  combine hs (combine ids ks).

Definition remove_ops (w : Workload) : list (bool * (Z * Z)) :=
  zip3 (remove_is_hit w) (remove_indices w) (remove_miss_keys w).

Definition search_ops (w : Workload) : list (bool * (Z * Z)) :=
  zip3 (search_is_hit w) (search_indices w) (search_miss_keys w).

(** An entry of the remove series against the generator events of its
    iteration. *)
Definition remove_entry (c : Config) (e : bool * (Z * Z)) (seg : list Event) : Prop :=
  let '(hit, (idx, key)) := e in
  if hit
  then usize_call (N c) idx seg /\ 0 <= idx < N c
  else exists d, seg = [EvU64 d] /\ key = N c + d mod N c + 1
                 /\ N c - 1 < key <= 2 * N c.

(** An entry of the search series against the generator events of its
    iteration: the events of one [next_f64] call, then those of the draw
    that supplies the index or the key. *)
Definition search_entry (c : Config) (e : bool * (Z * Z)) (seg : list Event) : Prop :=
  let '(hit, (idx, key)) := e in
  exists d0 f rest,
    seg = EvU64 d0 :: EvF64 f :: rest /\ f = unit_float d0 /\
    hit = PrimFloat.ltb f (SEARCH_HIT_RATE c) /\
    if hit
    then usize_call (N c) idx rest /\ 0 <= idx < N c
    else exists d, rest = [EvU64 d] /\ key = N c + d mod N c + 1
                   /\ ~ (0 <= key < N c).

(** The unused slot of an entry holds [0]. *)
Definition padded (e : bool * (Z * Z)) : Prop :=
  let '(hit, (idx, key)) := e in
  if hit then key = 0 else idx = 0.

(** Columns of the inverse of [advance] as a linear map over GF(2) on 64-bit
    words: entry [i] is the word that [advance] sends to [2^i]. *)
Definition retreat_columns : list Z :=
  [ 0x3C3A243BD872BB16; 0x78744877B0E5762D; 0xF0E890EF61CAEC5A;
    0xE4C170F9F1E6FA83; 0xCC92B0D4D1BED731; 0x9C35308E910E8C54;
    0x01401401C81C8189; 0x0280280390390312; 0x393A743CF800BD32;
    0x7274E879F0017A65; 0xE4E9D0F3E002F4CB; 0xCCC3F0C0F276CBA0;
    0x9C97B0A6D69EB577; 0x3C3F306A9F4E48D8; 0x787E60D53E9C91B1;
    0xF0FCC1AA7D392362; 0xE4E9D273C80164F2; 0xCCC3F5C0A271EBD2;
    0x9C97BAA67690F593; 0x3C3F246BDF52C910; 0x787E48D7BEA59221;
    0xF0FC91AF7D4B2442; 0xE4E97279C8E56AB2; 0xCCC2B5D4A3B9F753;
    0x9C953A8E7500CC90; 0x3C3A243BD872BB17; 0x78744877B0E5762F;
    0xCCD2B4D4B9B85748; 0x9CB5388E41038CA6; 0x3C7A203BB0743B7B;
    0x78F4407760E876F7; 0xCDD2A4D519A256F8; 0x9EB5188D01378FC6;
    0x387A603D301C3DBB; 0x70F4C07A60387B77; 0xDDD3A4CF18024DF9;
    0xBEB718B90277B9C5; 0x787E6055369C51BD; 0xF0FCC0AA6D38A37A;
    0xE4E9D073E80264C2; 0xCCC3F1C0E277EBB2; 0x9C97B2A6F69CF553;
    0x3C3F346ADF4AC890; 0x787E68D5BE959121; 0xF0FCD1AB7D2B2242;
    0xE4E9F271C82566B2; 0xCCC3B5C4A239EF52; 0x9C973AAE7600FC93;
    0x3C3E247BDE72DB11; 0x787C48F7BCE5B623; 0xF0F891EF79CB6C46;
    0xE4E172F9C1E5FABB; 0xCCD2B4D4B1B8D741; 0x9CB5388E51028CB4;
    0x0040040048048049; 0x0080080090090092; 0x3D3A343AF860BA32;
    0x7A746875F0C17465; 0xF4E8D0EBE182E8CA; 0xECC1F0F0F176F3A3;
    0xDC93B0C6D09EC570; 0xBC3730AA934EA8D6; 0x41441449CC9CC88D;
    0x828828939939911B ].

(** Xor of the columns selected by the set bits of [s], lowest bit first. *)
Fixpoint xor_select (cols : list Z) (s : Z) : Z :=
  match cols with
  | [] => 0
  | col :: cols' =>
    Z.lxor (if Z.odd s then col else 0) (xor_select cols' (Z.div2 s))
  end.

Definition retreat (s : Z) : Z := xor_select retreat_columns s.

(** A scaled-down configuration (ten keys, six remove hits and four remove
    misses, eight searches). *)
Definition small_config : Config :=
  mkConfig 10 0xDEADBEEFCAFEBABE 3 10 6 4 8 0.5%float.

(** A configuration whose remove split does not add up to [REMOVE_COUNT]. *)
Definition mismatched_config : Config :=
  mkConfig 4 0xDEADBEEFCAFEBABE 2 7 2 1 3 0.5%float.

(** ** Generator objects in the store of a process *)

(** A generator is an object: every call mutates the object the reference
    designates, and whoever holds the same reference sees the change.  The
    store maps each address to the generator found there; [free] is the
    first address not yet handed out. *)
Record Store : Type := mkStore {
  cell : nat -> XorShift64Star;
  free : nat
}.

(** Computations on the store. *)
Definition SM (A : Type) : Type := Store -> result (A * Store).

(** The result of a computation on the store, without the store. *)
Definition value {A} (x : result (A * Store)) : result A :=
  match x with
  | Ok (a, _) => Ok a
  | Raise e => Raise e
  end.

Definition put (h : Store) (g : nat) (o : XorShift64Star) : Store :=
  mkStore (fun a => if Nat.eqb a g then o else cell h a) (free h).

(** [XorShift64Star(seed)]: a new object at a fresh address. *)
Definition construct (seed : Z) (h : Store) : nat * Store :=
  (free h,
   mkStore (fun a => if Nat.eqb a (free h) then XorShift64Star_init seed
                     else cell h a)
           (S (free h))).

(** Calls made on the generator that [g] designates: they read and write
    that object and no other. *)
Definition call {A} (g : nat) (m : M A) : SM A :=
  fun h => match m (cell h g) with
           | Ok (a, o) => Ok (a, put h g o)
           | Raise e => Raise e
           end.

(** [next_u64] as the method it is: [self] designates an object of the
    store, the method reads [self.state] and writes [self.state]. *)
Definition next_u64_at (self : nat) : SM Z :=
  fun h =>
    let x := advance (state (cell h self)) in
    let out := Z.land (x * STAR) MASK64 in
    Ok (out, put h self (mkRng x (log (cell h self) ++ [EvU64 out]))).

(** The statements of [generate_data] after [rng = XorShift64Star(SEED)]:
    all of their generator calls are made on [rng]. *)
Definition generate_data_body (c : Config) : M Workload :=
  let insert_keys := range (N c) in
  insert_data <- comprehension (range (N c)) (fun _ => rand_char) ;;
  order <- shuffle (range (N c)) ;;
  shuffled_keys <- comprehension (range (N c))
                     (fun i => oi <- lift (py_getitem order i) ;;
                               lift (py_getitem insert_keys oi)) ;;
  update_indices <- comprehension (range (UPDATE_COUNT c))
                      (fun _ => next_usize (N c)) ;;
  update_data <- comprehension (range (UPDATE_COUNT c)) (fun _ => rand_char) ;;
  rem <- for_each (range (REMOVE_HITS c)) (fun _ => remove_hit_step c)
           (mkSeries [] [] []) ;;
  rem <- for_each (range (REMOVE_MISSES c)) (fun _ => remove_miss_step c) rem ;;
  sea <- for_each (range (SEARCH_COUNT c)) (fun _ => search_step c)
           (mkSeries [] [] []) ;;
  ret (mkWorkload shuffled_keys insert_data update_indices update_data
         (is_hit rem) (indices rem) (miss_keys rem)
         (is_hit sea) (indices sea) (miss_keys sea)
         (N c) (UPDATE_COUNT c) (REMOVE_COUNT c) (SEARCH_COUNT c)).

(** One run of [generate_data] in a process whose store is [h]: the
    generator is constructed inside the function, at a fresh address, and
    the rest of the function draws from it. *)
Definition generate_data_in (c : Config) : SM Workload :=
  fun h => let (rng, h1) := construct (SEED c) h in
           call rng (generate_data_body c) h1.

(** [next_u64] called on the generators of a schedule, one call per
    element and in that order; the result lists each call's generator with
    the value it returned. *)
Fixpoint draw_schedule (sched : list nat) : SM (list (nat * Z)) :=
  fun h =>
    match sched with
    | [] => Ok ([], h)
    | g :: rest =>
      match next_u64_at g h with
      | Ok (d, h1) =>
        match draw_schedule rest h1 with
        | Ok (t, h2) => Ok ((g, d) :: t, h2)
        | Raise e => Raise e
        end
      | Raise e => Raise e
      end
    end.

(** The values that generator [g] returned in a list of calls. *)
Definition outputs_of (g : nat) (trace : list (nat * Z)) : list Z :=
  map snd (filter (fun p => Nat.eqb (fst p) g) trace).

(** A store with nothing allocated. *)
Definition empty_store : Store := mkStore (fun _ => mkRng 0 []) 0.

(** ** Emission in chunks *)

(** [range(start, stop, step)] for a positive [step]: [start],
    [start + step], ... below [stop]. *)
Definition range_step (start stop step : Z) : list Z :=
  map (fun k => start + step * Z.of_nat k)
      (seq 0 (Z.to_nat ((stop - start + step - 1) / step))).

(** Bound of a slice brought into [[0, len]]: a negative bound counts from
    the end, and what still falls outside is clamped. *)
Definition slice_bound (len i : Z) : Z :=
  if i <? 0 then Z.max (i + len) 0 else Z.min i len.

(** [l[i:j]]; a slice never raises. *)
Definition py_slice {A} (l : list A) (i j : Z) : list A :=
  let len := Z.of_nat (length l) in
  let lo := slice_bound len i in
  let hi := slice_bound len j in
  firstn (Z.to_nat (hi - lo)) (skipn (Z.to_nat lo) l).

(** The loop both writers run for each array of the workload,
    [for i in range(0, len(xs), width): chunk = xs[i:i+width];
    f.write(line(chunk))]: the strings written, in order.  [width] is 10, 20
    or 8 in the source, and [line] renders a chunk as one line of text. *)
Definition write_chunked {A T} (line : list A -> T) (width : Z) (xs : list A) : list T :=
  map (fun i => line (py_slice xs i (i + width)))
      (range_step 0 (Z.of_nat (length xs)) width).

(** ** Further notions used in the statements *)

(** The character [rand_char] derives from the draw [d]. *)
Definition letter (d : Z) : ascii :=
  ascii_of_N (Z.to_N (Z.of_N (N_of_ascii "a") + d mod 26)).

(** One of the 26 characters from ["a"] to ["z"]. *)
Definition lowercase (ch : ascii) : Prop :=
  (N_of_ascii "a" <= N_of_ascii ch <= N_of_ascii "z")%N.

(** The last three loops of [generate_data] and its return statement, run
    after the insert and update series are built. *)
Definition build_series (c : Config) (shuffled_keys : list Z)
    (insert_data : list ascii) (update_indices : list Z)
    (update_data : list ascii) : M Workload :=
  rem <- for_each (range (REMOVE_HITS c)) (fun _ => remove_hit_step c)
           (mkSeries [] [] []) ;;
  rem <- for_each (range (REMOVE_MISSES c)) (fun _ => remove_miss_step c) rem ;;
  sea <- for_each (range (SEARCH_COUNT c)) (fun _ => search_step c)
           (mkSeries [] [] []) ;;
  ret (mkWorkload shuffled_keys insert_data update_indices update_data
         (is_hit rem) (indices rem) (miss_keys rem)
         (is_hit sea) (indices sea) (miss_keys sea)
         (N c) (UPDATE_COUNT c) (REMOVE_COUNT c) (SEARCH_COUNT c)).

(** Number of [next_u64] draws of a build whose key domain has more than
    one key: [N] characters, [N - 1] shuffle steps, an index and a character
    per update, one draw per remove entry and two per search entry. *)
Definition total_draws (c : Config) : nat :=
  (Z.to_nat (N c) + (Z.to_nat (N c) - 1)
   + 2 * Z.to_nat (UPDATE_COUNT c)
   + Z.to_nat (REMOVE_HITS c) + Z.to_nat (REMOVE_MISSES c)
   + 2 * Z.to_nat (SEARCH_COUNT c))%nat.

(** What an entry of a series asks of the inserted keys: a hit carries a
    valid position of [keys], a miss carries a key that is not in [keys]. *)
Definition well_targeted (keys : list Z) (e : bool * (Z * Z)) : Prop :=
  let '(hit, (idx, key)) := e in
  if hit then exists k, py_getitem keys idx = Ok k else ~ In key keys.

(** * Properties *)

(** ** Running computations *)

Lemma bind_Ok {A B} (m : M A) (k : A -> M B) r a r' :
  m r = Ok (a, r') -> bind m k r = k a r'.
Proof. unfold bind. intros ->. reflexivity. Qed.

Lemma next_u64_run r :
  next_u64 r =
  Ok (Z.land (advance (state r) * STAR) MASK64,
      mkRng (advance (state r))
            (log r ++ [EvU64 (Z.land (advance (state r) * STAR) MASK64)])).
Proof. reflexivity. Qed.

Lemma next_usize_low bound r :
  bound <= 1 ->
  next_usize bound r = Ok (0, mkRng (state r) (log r ++ [EvUsize bound 0])).
Proof.
  intros Hb. unfold next_usize.
  destruct (Z.leb_spec bound 1); [reflexivity | lia].
Qed.

Lemma next_usize_high bound r :
  1 < bound ->
  let d := Z.land (advance (state r) * STAR) MASK64 in
  next_usize bound r =
  Ok (d mod bound,
      mkRng (advance (state r))
            (log r ++ [EvU64 d; EvUsize bound (d mod bound)])).
Proof.
  intros Hb d. unfold next_usize.
  destruct (Z.leb_spec bound 1); [lia |].
  unfold bind, emit, ret. rewrite next_u64_run. cbn [state log].
  rewrite <- app_assoc. reflexivity.
Qed.

(** ** The state update as a linear map on 64-bit words *)

Lemma MASK64_ones : MASK64 = Z.ones 64.
Proof. reflexivity. Qed.

Lemma land_MASK64 x : Z.land x MASK64 = x mod 2 ^ 64.
Proof. rewrite MASK64_ones. apply Z.land_ones. lia. Qed.

Lemma advance_range x : 0 <= advance x < 2 ^ 64.
Proof.
  unfold advance. rewrite land_MASK64. apply Z.mod_pos_bound. lia.
Qed.

Lemma lxor_interchange a b c d :
  Z.lxor (Z.lxor a b) (Z.lxor c d) = Z.lxor (Z.lxor a c) (Z.lxor b d).
Proof.
  apply Z.bits_inj'. intros k _. rewrite !Z.lxor_spec.
  destruct (Z.testbit a k), (Z.testbit b k), (Z.testbit c k), (Z.testbit d k);
    reflexivity.
Qed.

Lemma land_lxor_l a b m :
  Z.land (Z.lxor a b) m = Z.lxor (Z.land a m) (Z.land b m).
Proof.
  apply Z.bits_inj'. intros k _.
  rewrite !Z.lxor_spec, !Z.land_spec, !Z.lxor_spec.
  destruct (Z.testbit a k), (Z.testbit b k), (Z.testbit m k); reflexivity.
Qed.

Lemma advance_lxor a b :
  advance (Z.lxor a b) = Z.lxor (advance a) (advance b).
Proof.
  unfold advance.
  rewrite Z.shiftr_lxor, lxor_interchange.
  rewrite Z.shiftl_lxor, lxor_interchange.
  rewrite Z.shiftr_lxor, lxor_interchange.
  apply land_lxor_l.
Qed.

Lemma xor_select_lxor cols : forall a b,
  xor_select cols (Z.lxor a b) = Z.lxor (xor_select cols a) (xor_select cols b).
Proof.
  induction cols as [|col cols IH]; intros a b; cbn [xor_select].
  - reflexivity.
  - rewrite !Z.div2_spec, Z.shiftr_lxor, IH, <- !Z.bit0_odd, Z.lxor_spec.
    rewrite <- lxor_interchange. f_equal.
    destruct (Z.testbit a 0), (Z.testbit b 0); cbn [xorb];
      rewrite ?Z.lxor_0_l, ?Z.lxor_0_r, ?Z.lxor_nilpotent; reflexivity.
Qed.

Lemma retreat_advance_pow2 (k : nat) :
  (k < 64)%nat -> retreat (advance (2 ^ Z.of_nat k)) = 2 ^ Z.of_nat k.
Proof.
  intros Hk.
  assert (Hall : forallb (fun i => retreat (advance (2 ^ Z.of_nat i)) =? 2 ^ Z.of_nat i)
                         (seq 0 64) = true) by (vm_compute; reflexivity).
  rewrite forallb_forall in Hall.
  apply Z.eqb_eq, Hall, in_seq. lia.
Qed.

Lemma split_top_bit (k : nat) x :
  0 <= x < 2 ^ Z.of_nat (S k) ->
  x = x mod 2 ^ Z.of_nat k \/
  x = Z.lxor (x mod 2 ^ Z.of_nat k) (2 ^ Z.of_nat k).
Proof.
  intros Hx.
  assert (Hp : 0 < 2 ^ Z.of_nat k) by (apply Z.pow_pos_nonneg; lia).
  assert (Hs : 2 ^ Z.of_nat (S k) = 2 * 2 ^ Z.of_nat k)
    by (rewrite Nat2Z.inj_succ, Z.pow_succ_r; lia).
  destruct (Z.lt_ge_cases x (2 ^ Z.of_nat k)) as [Hlt | Hge].
  - left. symmetry. apply Z.mod_small. lia.
  - right.
    assert (Hm : x mod 2 ^ Z.of_nat k = x - 2 ^ Z.of_nat k).
    { symmetry. apply Z.mod_unique_pos with (q := 1); lia. }
    rewrite <- Z.add_nocarry_lxor.
    + lia.
    + apply Z.bits_inj'. intros i Hi.
      rewrite Z.land_spec, Z.bits_0, Z.pow2_bits_eqb by lia.
      destruct (Z.eqb_spec (Z.of_nat k) i) as [<- |]; [| apply andb_false_r].
      rewrite Z.mod_pow2_bits_high by lia. reflexivity.
Qed.

Lemma retreat_advance_bounded (k : nat) : forall x,
  (k <= 64)%nat -> 0 <= x < 2 ^ Z.of_nat k -> retreat (advance x) = x.
Proof.
  induction k as [|k IH]; intros x Hk Hx.
  - assert (x = 0) by (cbn in Hx; lia). subst x. reflexivity.
  - assert (Hlow : 0 <= x mod 2 ^ Z.of_nat k < 2 ^ Z.of_nat k)
      by (apply Z.mod_pos_bound, Z.pow_pos_nonneg; lia).
    destruct (split_top_bit k x Hx) as [E | E]; rewrite E.
    + apply IH; [lia | exact Hlow].
    + unfold retreat. rewrite advance_lxor, xor_select_lxor.
      fold (retreat (advance (x mod 2 ^ Z.of_nat k))).
      fold (retreat (advance (2 ^ Z.of_nat k))).
      rewrite IH by (try lia; exact Hlow).
      rewrite retreat_advance_pow2 by lia. reflexivity.
Qed.

(** [advance] is one-to-one on 64-bit words: [retreat] undoes it. *)
Lemma retreat_advance x : 0 <= x < 2 ^ 64 -> retreat (advance x) = x.
Proof. intros Hx. apply (retreat_advance_bounded 64); [lia | exact Hx]. Qed.

Lemma advance_nonzero x : 0 < x < 2 ^ 64 -> 0 < advance x < 2 ^ 64.
Proof.
  intros Hx. pose proof (advance_range x) as Hr.
  assert (advance x <> 0); [| lia].
  intros E. pose proof (retreat_advance x ltac:(lia)) as Hinv.
  rewrite E in Hinv. assert (retreat 0 = 0) by reflexivity. lia.
Qed.

(** ** Sequences of draws *)

Lemma next_u64_seq_succ k r :
  next_u64_seq (S k) r =
  match next_u64_seq k (mkRng (advance (state r))
                          (log r ++ [EvU64 (Z.land (advance (state r) * STAR) MASK64)])) with
  | Ok (outs, r') => Ok (Z.land (advance (state r) * STAR) MASK64 :: outs, r')
  | Raise e => Raise e
  end.
Proof.
  unfold next_u64_seq. cbn [repeat comprehension]. unfold bind at 1.
  rewrite next_u64_run. unfold bind, ret.
  destruct (comprehension _ _ _) as [[outs r'] | e]; reflexivity.
Qed.

(** The outputs of [k] draws depend on the state alone, not on the calls
    made before. *)
Lemma next_u64_seq_total k : forall r,
  exists outs r', next_u64_seq k r = Ok (outs, r') /\ length outs = k /\
    (0 < state r < 2 ^ 64 -> 0 < state r' < 2 ^ 64) /\
    forall r2, state r2 = state r ->
      exists r2', next_u64_seq k r2 = Ok (outs, r2') /\ state r2' = state r'.
Proof.
  induction k as [|k IH]; intros r.
  - exists [], r. repeat split; try tauto.
    intros r2 E. exists r2. split; [reflexivity | exact E].
  - rewrite next_u64_seq_succ.
    destruct (IH (mkRng (advance (state r))
                    (log r ++ [EvU64 (Z.land (advance (state r) * STAR) MASK64)])))
      as (outs & r' & Hrun & Hlen & Hpos & Hdet).
    rewrite Hrun. eexists. exists r'. split; [reflexivity |].
    split; [cbn; congruence |]. split.
    + intros Hs. apply Hpos. cbn [state]. apply advance_nonzero, Hs.
    + intros r2 E. rewrite next_u64_seq_succ, E.
      destruct (Hdet (mkRng (advance (state r))
                        (log r2 ++ [EvU64 (Z.land (advance (state r) * STAR) MASK64)]))
                     eq_refl) as (r2' & Hrun2 & Hst).
      rewrite Hrun2. exists r2'. split; [reflexivity | exact Hst].
Qed.

(** ** The generator *)

(** C1 (the code departs from the claim).  The claim describes the
    xorshift64 recurrence with every step reduced modulo [2^64].  The source
    masks only once, after the third step, so the bits that the left shift
    by 25 pushed above bit 63 are still present when the right shift by 27
    runs and come back into bits 37..61 of the new state.  From the
    configured seed [0xDEADBEEFCAFEBABE] the first call of [next_u64] stores
    [0x8140450853081684], while the reference recurrence gives
    [0xB6E8500853081684].  The returned value is the stored state times the
    constant modulo [2^64], and it is not what is stored. *)
Theorem next_u64_departs_from_xorshift64 :
  exists out r',
    next_u64 (XorShift64Star_init (SEED source_config)) = Ok (out, r') /\
    state r' = 0x8140450853081684 /\
    xorshift64_reference (SEED source_config) = 0xB6E8500853081684 /\
    state r' <> xorshift64_reference (SEED source_config) /\
    out = (state r' * 0x2545F4914F6CDD1D) mod 2 ^ 64 /\
    out <> state r'.
Proof.
  eexists. eexists. split; [reflexivity |].
  cbn [state]. repeat split; try (vm_compute; congruence).
Qed.

(** C2.  The state is never zero: [__init__] stores 1 for seed 0, so a
    generator built from seed 0 is the generator built from seed 1 and
    yields the same outputs; any other seed is stored as it is; and from a
    nonzero 64-bit seed the state is still nonzero after any number of
    [next_u64] calls. *)
Theorem state_never_zero (seed : Z) (k : nat) :
  state (XorShift64Star_init 0) = 1 /\
  XorShift64Star_init 0 = XorShift64Star_init 1 /\
  next_u64_seq k (XorShift64Star_init 0) = next_u64_seq k (XorShift64Star_init 1) /\
  state (XorShift64Star_init seed) <> 0 /\
  (seed <> 0 -> state (XorShift64Star_init seed) = seed) /\
  (0 < seed < 2 ^ 64 ->
   exists outs r', next_u64_seq k (XorShift64Star_init seed) = Ok (outs, r') /\
                   length outs = k /\ state r' <> 0 /\
                   state_after k (XorShift64Star_init seed) <> 0).
Proof.
  repeat split.
  - unfold XorShift64Star_init. cbn [state].
    destruct (Z.eqb_spec seed 0); cbn [negb]; lia.
  - intros Hs. unfold XorShift64Star_init. cbn [state].
    destruct (Z.eqb_spec seed 0); cbn [negb]; [contradiction | reflexivity].
  - intros Hs.
    destruct (next_u64_seq_total k (XorShift64Star_init seed))
      as (outs & r' & Hrun & Hlen & Hpos & _).
    assert (Hst : state (XorShift64Star_init seed) = seed).
    { unfold XorShift64Star_init. cbn [state].
      destruct (Z.eqb_spec seed 0); cbn [negb]; [lia | reflexivity]. }
    rewrite Hst in Hpos. specialize (Hpos Hs).
    exists outs, r'. unfold state_after. rewrite Hrun.
    repeat split; try assumption; lia.
Qed.

Lemma state_never_zero_witness :
  state (XorShift64Star_init 0xDEADBEEFCAFEBABE) = 0xDEADBEEFCAFEBABE /\
  state_after 3 (XorShift64Star_init 0xDEADBEEFCAFEBABE) <> 0.
Proof.
  destruct (state_never_zero 0xDEADBEEFCAFEBABE 3) as (_ & _ & _ & _ & Hv & Hk).
  split.
  - apply Hv. discriminate.
  - destruct Hk as (outs & r' & _ & _ & _ & Hz).
    + split; reflexivity.
    + exact Hz.
Defined.

(** C3.  [next_usize(bound)] with [bound <= 1] returns 0 and leaves the
    state as it was, making no [next_u64] draw; with [bound > 1] it returns
    [next_u64() % bound], which lies in [[0, bound)], and the state has
    advanced by exactly one [next_u64] call. *)
Theorem next_usize_spec (r : XorShift64Star) (bound : Z) :
  (bound <= 1 ->
   exists r', next_usize bound r = Ok (0, r') /\
              state r' = state r /\
              log r' = log r ++ [EvUsize bound 0]) /\
  (1 < bound ->
   exists d r1 r', next_u64 r = Ok (d, r1) /\
                   next_usize bound r = Ok (d mod bound, r') /\
                   0 <= d mod bound < bound /\
                   state r' = state r1 /\
                   log r' = log r ++ [EvU64 d; EvUsize bound (d mod bound)]).
Proof.
  split; intros Hb.
  - eexists. rewrite next_usize_low by exact Hb.
    split; [reflexivity |]. split; reflexivity.
  - eexists. eexists. eexists. rewrite next_usize_high by exact Hb.
    split; [apply next_u64_run |]. split; [reflexivity |].
    split; [apply Z.mod_pos_bound; lia |]. split; reflexivity.
Qed.

Lemma next_usize_spec_witness :
  (exists r', next_usize 1 (XorShift64Star_init 7) = Ok (0, r') /\
              state r' = 7) /\
  (exists v r', next_usize 10 (XorShift64Star_init 7) = Ok (v, r') /\
                0 <= v < 10 /\ state r' = advance 7).
Proof.
  split.
  - destruct (proj1 (next_usize_spec (XorShift64Star_init 7) 1)) as (r' & H1 & H2 & _).
    + lia.
    + exists r'. split; [exact H1 | exact H2].
  - destruct (proj2 (next_usize_spec (XorShift64Star_init 7) 10))
      as (d & r1 & r' & H0 & H1 & H2 & H3 & _).
    + lia.
    + exists (d mod 10), r'. split; [exact H1 |]. split; [exact H2 |].
      rewrite H3. rewrite next_u64_run in H0. injection H0 as _ <-. reflexivity.
Defined.

(** ** List indexing and the exchange of two positions *)

Lemma list_set_length {A} (l : list A) : forall k x,
  length (list_set l k x) = length l.
Proof.
  induction l as [|h t IH]; intros [|k] x; cbn; try reflexivity.
  f_equal. apply IH.
Qed.

Lemma py_index_in_range {A} (l : list A) i :
  0 <= i < Z.of_nat (length l) -> py_index l i = Ok (Z.to_nat i).
Proof.
  intros Hi. unfold py_index.
  destruct (Z.leb_spec 0 i); [| lia].
  destruct (Z.ltb_spec i (Z.of_nat (length l))); [reflexivity | lia].
Qed.

Lemma py_getitem_in_range {A} (l : list A) i :
  0 <= i < Z.of_nat (length l) ->
  exists x, nth_error l (Z.to_nat i) = Some x /\ py_getitem l i = Ok x.
Proof.
  intros Hi. unfold py_getitem. rewrite py_index_in_range by exact Hi.
  destruct (nth_error l (Z.to_nat i)) as [x|] eqn:E.
  - exists x. split; reflexivity.
  - apply nth_error_None in E. lia.
Qed.

Lemma py_setitem_in_range {A} (l : list A) i x :
  0 <= i < Z.of_nat (length l) ->
  py_setitem l i x = Ok (list_set l (Z.to_nat i) x).
Proof.
  intros Hi. unfold py_setitem. rewrite py_index_in_range by exact Hi.
  reflexivity.
Qed.

Lemma swap_items_in_range {A} (l : list A) i j :
  0 <= i < Z.of_nat (length l) -> 0 <= j < Z.of_nat (length l) ->
  swap_items l i j = Ok (swap_at l (Z.to_nat i) (Z.to_nat j)).
Proof.
  intros Hi Hj. unfold swap_items, swap_at.
  destruct (py_getitem_in_range l j Hj) as (b & Eb & ->).
  destruct (py_getitem_in_range l i Hi) as (a & Ea & ->).
  rewrite Ea, Eb.
  rewrite py_setitem_in_range by exact Hi.
  rewrite py_setitem_in_range by (rewrite list_set_length; exact Hj).
  reflexivity.
Qed.

Lemma list_set_move {A} (l : list A) : forall k a b,
  nth_error l k = Some b -> Permutation (a :: l) (b :: list_set l k a).
Proof.
  induction l as [|h t IH]; intros [|k] a b E; cbn in E; try discriminate.
  - injection E as ->. cbn. apply perm_swap.
  - cbn. eapply perm_trans; [apply perm_swap |].
    eapply perm_trans; [apply perm_skip, IH, E |]. apply perm_swap.
Qed.

Lemma swap_at_Permutation {A} (l : list A) : forall i j,
  Permutation l (swap_at l i j).
Proof.
  intros i j. unfold swap_at.
  destruct (nth_error l i) as [a|] eqn:Ea; [| reflexivity].
  destruct (nth_error l j) as [b|] eqn:Eb; [| reflexivity].
  revert i j a b Ea Eb.
  induction l as [|h t IH]; intros [|i] [|j] a b Ea Eb; cbn in Ea, Eb;
    try discriminate; cbn.
  - injection Ea as ->. reflexivity.
  - injection Ea as ->. apply list_set_move, Eb.
  - injection Eb as ->. apply list_set_move, Ea.
  - apply perm_skip. eapply IH; eassumption.
Qed.

Lemma apply_swaps_Permutation {A} ijs : forall l : list A,
  Permutation l (apply_swaps ijs l).
Proof.
  induction ijs as [|ij ijs IH]; intros l; cbn.
  - reflexivity.
  - eapply perm_trans; [apply swap_at_Permutation |]. apply IH.
Qed.

Lemma range_down_to_one (L : nat) :
  range_down (Z.of_nat L - 1) 0 = rev (map Z.of_nat (seq 1 (L - 1))).
Proof.
  unfold range_down.
  replace (Z.to_nat (Z.of_nat L - 1 - 0)) with (L - 1)%nat by lia.
  destruct L as [|m]; [reflexivity |].
  replace (S m - 1)%nat with m by lia.
  replace (Z.of_nat (S m) - 1) with (Z.of_nat m) by lia.
  induction m as [|m IH]; [reflexivity |].
  rewrite (seq_S m 1), map_app, rev_app_distr, <- IH.
  cbn [seq map rev app]. f_equal; try lia.
  rewrite <- seq_shift, map_map. apply map_ext. intros k. lia.
Qed.

Lemma range_down_bounds (L : nat) :
  Forall (fun i => 1 <= i < Z.of_nat L) (range_down (Z.of_nat L - 1) 0).
Proof.
  apply Forall_forall. intros i Hi. unfold range_down in Hi.
  apply in_map_iff in Hi. destruct Hi as (k & <- & Hk).
  apply in_seq in Hk. lia.
Qed.

(** ** The shuffle *)

Lemma shuffle_loop {A} : forall (idxs : list Z) (array : list A) r,
  Forall (fun i => 1 <= i < Z.of_nat (length array)) idxs ->
  exists js array' r' seg,
    for_each idxs
      (fun i array => j <- next_usize (i + 1) ;; lift (swap_items array i j))
      array r = Ok (array', r') /\
    length js = length idxs /\
    Forall2 (fun i j => 0 <= j <= i) idxs js /\
    log r' = log r ++ seg /\
    filter is_usize_event seg =
      map (fun ij => EvUsize (fst ij + 1) (snd ij)) (combine idxs js) /\
    length (filter is_u64_event seg) = length idxs /\
    array' = apply_swaps (combine idxs js) array.
Proof.
  induction idxs as [|i idxs IH]; intros array r Hall.
  - exists [], array, r, []. cbn. rewrite app_nil_r.
    repeat split; constructor.
  - inversion Hall as [|? ? Hi Hrest]; subst.
    set (d := Z.land (advance (state r) * STAR) MASK64).
    set (j := d mod (i + 1)).
    assert (Hj : 0 <= j < i + 1) by (apply Z.mod_pos_bound; lia).
    set (r1 := mkRng (advance (state r))
                 (log r ++ [EvU64 d; EvUsize (i + 1) j])).
    set (array1 := swap_at array (Z.to_nat i) (Z.to_nat j)).
    assert (Hlen : length array1 = length array).
    { symmetry. apply Permutation_length, swap_at_Permutation. }
    destruct (IH array1 r1) as (js & array' & r' & seg & Hrun & Hjs & Hf2 & Hlog & Hus & Hu64 & Harr).
    { rewrite Hlen. exact Hrest. }
    exists (j :: js), array', r', ([EvU64 d; EvUsize (i + 1) j] ++ seg).
    split.
    { cbn [for_each]. unfold bind at 1. unfold bind at 1.
      rewrite next_usize_high by lia. fold d. fold j. fold r1.
      unfold lift. rewrite swap_items_in_range by lia. fold array1.
      exact Hrun. }
    split; [cbn; congruence |].
    split; [constructor; [lia | exact Hf2] |].
    split; [rewrite Hlog; subst r1; cbn [log]; rewrite <- app_assoc; reflexivity |].
    split; [cbn; rewrite Hus; reflexivity |].
    split; [cbn; rewrite Hu64; reflexivity |].
    exact Harr.
Qed.

(** [shuffle] never raises, only extends the call log, and returns a
    permutation of its argument. *)
Lemma shuffle_returns {A} (array : list A) (r : XorShift64Star) :
  exists array' r' seg,
    shuffle array r = Ok (array', r') /\
    log r' = log r ++ seg /\
    Permutation array array'.
Proof.
  destruct (shuffle_loop (range_down (Z.of_nat (length array) - 1) 0) array r
              (range_down_bounds (length array)))
    as (js & array' & r' & seg & Hrun & _ & _ & Hlog & _ & _ & Harr).
  exists array', r', seg. split; [exact Hrun |]. split; [exact Hlog |].
  rewrite Harr. apply apply_swaps_Permutation.
Qed.

(** C4.  On an array of length [L], [shuffle] runs the index [i] from [L-1]
    down to 1, draws [j = next_usize(i+1)] at each step (so [0 <= j <= i])
    and exchanges positions [i] and [j]; it makes exactly [L-1] calls of
    [next_usize], each of them drawing once from [next_u64] (none when the
    array is empty), never raises, and the resulting array is a permutation
    of the input. *)
Theorem shuffle_fisher_yates {A} (array : list A) (r : XorShift64Star) :
  let L := length array in
  let idxs := rev (map Z.of_nat (seq 1 (L - 1))) in
  exists js array' r' seg,
    shuffle array r = Ok (array', r') /\
    length js = (L - 1)%nat /\
    Forall2 (fun i j => 0 <= j <= i) idxs js /\
    array' = apply_swaps (combine idxs js) array /\
    log r' = log r ++ seg /\
    filter is_usize_event seg =
      map (fun ij => EvUsize (fst ij + 1) (snd ij)) (combine idxs js) /\
    length (filter is_usize_event seg) = (L - 1)%nat /\
    length (filter is_u64_event seg) = (L - 1)%nat /\
    Permutation array array'.
Proof.
  intros L idxs.
  assert (Hidx : range_down (Z.of_nat L - 1) 0 = idxs) by apply range_down_to_one.
  assert (Hlen : length idxs = (L - 1)%nat).
  { subst idxs. rewrite length_rev, length_map, length_seq. reflexivity. }
  destruct (shuffle_loop (range_down (Z.of_nat L - 1) 0) array r (range_down_bounds L))
    as (js & array' & r' & seg & Hrun & Hjs & Hf2 & Hlog & Hus & Hu64 & Harr).
  rewrite Hidx in Hjs, Hf2, Hus, Hu64, Harr.
  exists js, array', r', seg.
  split; [exact Hrun |].
  split; [congruence |].
  split; [exact Hf2 |].
  split; [exact Harr |].
  split; [exact Hlog |].
  split; [exact Hus |].
  split.
  { rewrite Hus, length_map, length_combine, Hjs, Hlen. apply Nat.min_id. }
  split; [congruence |].
  rewrite Harr. apply apply_swaps_Permutation.
Qed.

(** ** Loops and comprehensions *)

Lemma comprehension_total {A B} (f : A -> M B) (P : B -> Prop) (xs : list A) :
  (forall x r, exists y r' seg,
      f x r = Ok (y, r') /\ P y /\ log r' = log r ++ seg) ->
  forall r, exists ys r' seg,
      comprehension xs f r = Ok (ys, r') /\ length ys = length xs /\
      Forall P ys /\ log r' = log r ++ seg.
Proof.
  intros Hf. induction xs as [|x xs IH]; intros r.
  - exists [], r, []. rewrite app_nil_r. repeat split. constructor.
  - destruct (Hf x r) as (y & r1 & seg1 & Hrun1 & Hy & Hlog1).
    destruct (IH r1) as (ys & r' & seg & Hrun & Hlen & Hall & Hlog).
    exists (y :: ys), r', (seg1 ++ seg). split.
    + cbn [comprehension]. rewrite (bind_Ok _ _ _ _ _ Hrun1).
      rewrite (bind_Ok _ _ _ _ _ Hrun). reflexivity.
    + split; [cbn; congruence |]. split; [constructor; assumption |].
      rewrite Hlog, Hlog1, app_assoc. reflexivity.
Qed.

Lemma comprehension_pure {A B} (f : A -> M B) (h : A -> B) (xs : list A) :
  (forall x r, In x xs -> f x r = Ok (h x, r)) ->
  forall r, comprehension xs f r = Ok (map h xs, r).
Proof.
  induction xs as [|x xs IH]; intros Hf r; [reflexivity |].
  cbn [comprehension map].
  rewrite (bind_Ok _ _ _ _ _ (Hf x r (or_introl eq_refl))).
  rewrite (bind_Ok _ _ _ _ _ (IH (fun y r0 Hy => Hf y r0 (or_intror Hy)) r)).
  reflexivity.
Qed.

Lemma map_nth_seq {A} (d : A) (l : list A) :
  map (fun k => nth k l d) (seq 0 (length l)) = l.
Proof.
  induction l as [|a t IH]; [reflexivity |].
  cbn [length seq map nth]. f_equal.
  rewrite <- seq_shift, map_map. exact IH.
Qed.

Lemma range_length m : length (range m) = Z.to_nat m.
Proof. unfold range. rewrite length_map, length_seq. reflexivity. Qed.

Lemma range_In m i : In i (range m) <-> 0 <= i < m.
Proof.
  unfold range. rewrite in_map_iff. split.
  - intros (k & <- & Hk). apply in_seq in Hk. lia.
  - intros Hi. exists (Z.to_nat i). split; [lia |]. apply in_seq. lia.
Qed.

Lemma range_getitem m i : 0 <= i < m -> py_getitem (range m) i = Ok i.
Proof.
  intros Hi.
  destruct (py_getitem_in_range (range m) i) as (x & Hx & ->).
  { rewrite range_length. lia. }
  f_equal. unfold range in Hx.
  rewrite nth_error_map in Hx.
  destruct (nth_error (seq 0 (Z.to_nat m)) (Z.to_nat i)) as [k|] eqn:E;
    cbn in Hx; [| discriminate].
  injection Hx as <-.
  apply nth_error_nth with (d := O) in E. rewrite seq_nth in E by lia. lia.
Qed.

(** Reading the identity key list through a permutation of its indices
    gives back that permutation. *)
Lemma reindex_run m (order : list Z) r :
  Permutation (range m) order ->
  comprehension (range m)
    (fun i => oi <- lift (py_getitem order i) ;; lift (py_getitem (range m) oi)) r
  = Ok (order, r).
Proof.
  intros Hperm.
  assert (Hlen : length order = Z.to_nat m).
  { rewrite <- (Permutation_length Hperm). apply range_length. }
  rewrite comprehension_pure with (h := fun i => nth (Z.to_nat i) order 0).
  - f_equal. f_equal. unfold range. rewrite map_map.
    rewrite <- Hlen. rewrite <- (map_nth_seq 0 order) at 2.
    apply map_ext. intros k. rewrite Nat2Z.id. reflexivity.
  - intros i r0 Hi. apply range_In in Hi.
    destruct (py_getitem_in_range order i) as (oi & Hnth & Hget); [lia |].
    unfold bind, lift. rewrite Hget.
    assert (Hoi : 0 <= oi < m).
    { apply range_In. apply (Permutation_in _ (Permutation_sym Hperm)).
      eapply nth_error_In, Hnth. }
    rewrite range_getitem by exact Hoi.
    rewrite (nth_error_nth _ _ 0 Hnth). reflexivity.
Qed.

Lemma zip3_app hs1 is1 ks1 hs2 is2 ks2 :
  length is1 = length hs1 -> length ks1 = length hs1 ->
  zip3 (hs1 ++ hs2) (is1 ++ is2) (ks1 ++ ks2) =
  zip3 hs1 is1 ks1 ++ zip3 hs2 is2 ks2.
Proof.
  revert is1 ks1.
  induction hs1 as [|h hs1 IH]; intros [|i is1] [|k ks1] Hi Hk;
    cbn in Hi, Hk; try discriminate; [reflexivity |].
  unfold zip3 in *. cbn. f_equal. apply IH; congruence.
Qed.

Lemma zip3_length hs ids ks :
  length ids = length hs -> length ks = length hs ->
  length (zip3 hs ids ks) = length hs.
Proof.
  intros Hi Hk. unfold zip3. rewrite !length_combine. lia.
Qed.

Lemma Forall_eq_repeat {A} (a : A) l :
  Forall (fun x => x = a) l -> l = repeat a (length l).
Proof.
  induction 1 as [|x l Hx _ IH]; [reflexivity |].
  cbn. rewrite Hx. f_equal. exact IH.
Qed.

(** A loop whose body appends one entry to the three lists of a series:
    the entries it adds, each with the generator events of its iteration. *)
Lemma series_loop {A} (body : OpSeries -> M OpSeries)
      (entry : bool * (Z * Z) -> list Event -> Prop) (tag : bool -> Prop) :
  (forall s r, exists h i k r' seg,
      body s r = Ok (append3 s h i k, r') /\ log r' = log r ++ seg /\
      entry (h, (i, k)) seg /\ padded (h, (i, k)) /\ tag h) ->
  forall (xs : list A) s r, exists hs ids ks r' segs,
      for_each xs (fun _ => body) s r =
        Ok (mkSeries (is_hit s ++ hs) (indices s ++ ids) (miss_keys s ++ ks), r') /\
      length hs = length xs /\ length ids = length xs /\ length ks = length xs /\
      log r' = log r ++ concat segs /\
      Forall2 entry (zip3 hs ids ks) segs /\
      Forall padded (zip3 hs ids ks) /\
      Forall tag hs.
Proof.
  intros Hbody. induction xs as [|x xs IH]; intros s r.
  - exists [], [], [], r, []. cbn. rewrite !app_nil_r.
    destruct s. repeat split; constructor.
  - destruct (Hbody s r) as (h & i & k & r1 & seg & Hrun1 & Hlog1 & He & Hp & Ht).
    destruct (IH (append3 s h i k) r1)
      as (hs & ids & ks & r' & segs & Hrun & Hh & Hi & Hk & Hlog & Hes & Hps & Hts).
    exists (h :: hs), (i :: ids), (k :: ks), r', (seg :: segs). split.
    { cbn [for_each]. rewrite (bind_Ok _ _ _ _ _ Hrun1), Hrun.
      cbn [append3 is_hit indices miss_keys]. rewrite <- !app_assoc. reflexivity. }
    split; [cbn; congruence |]. split; [cbn; congruence |].
    split; [cbn; congruence |].
    split; [rewrite Hlog, Hlog1; cbn [concat]; rewrite app_assoc; reflexivity |].
    split; [constructor; assumption |].
    split; constructor; assumption.
Qed.

(** ** The steps of the builder *)

Lemma rand_char_total (r : XorShift64Star) :
  exists ch r' seg, rand_char r = Ok (ch, r') /\ True /\ log r' = log r ++ seg.
Proof.
  unfold rand_char, bind, emit, ret. rewrite next_u64_run. cbn [state log].
  eexists. eexists. eexists. split; [reflexivity |]. split; [exact I |].
  rewrite <- app_assoc. reflexivity.
Qed.

Lemma next_usize_total bound r :
  0 < bound ->
  exists v r' seg, next_usize bound r = Ok (v, r') /\ 0 <= v < bound /\
                   log r' = log r ++ seg /\ usize_call bound v seg.
Proof.
  intros Hb. unfold usize_call. destruct (Z.leb_spec bound 1) as [Hle | Hgt].
  - exists 0. eexists. exists [EvUsize bound 0].
    rewrite next_usize_low by exact Hle.
    split; [reflexivity |]. split; [lia |]. split; [reflexivity |].
    split; reflexivity.
  - eexists. eexists. eexists. rewrite next_usize_high by exact Hgt.
    split; [reflexivity |]. split; [apply Z.mod_pos_bound; lia |].
    split; [reflexivity |]. eexists. split; reflexivity.
Qed.

Lemma draw_miss_key_total c r :
  0 < N c ->
  exists d r', draw_miss_key c r = Ok (N c + d mod N c + 1, r') /\
               log r' = log r ++ [EvU64 d] /\
               N c - 1 < N c + d mod N c + 1 <= 2 * N c.
Proof.
  intros HN. unfold draw_miss_key, bind, lift, ret, py_mod.
  rewrite next_u64_run.
  destruct (Z.eqb_spec (N c) 0); [lia |].
  eexists. eexists. split; [reflexivity |]. split; [reflexivity |].
  pose proof (Z.mod_pos_bound (Z.land (advance (state r) * STAR) MASK64) (N c) HN).
  lia.
Qed.

Lemma remove_hit_step_total c :
  0 < N c ->
  forall s r, exists h i k r' seg,
    remove_hit_step c s r = Ok (append3 s h i k, r') /\ log r' = log r ++ seg /\
    remove_entry c (h, (i, k)) seg /\ padded (h, (i, k)) /\ h = true.
Proof.
  intros HN s r.
  destruct (next_usize_total (N c) r HN) as (v & r' & seg & Hrun & Hv & Hlog & Hcall).
  exists true, v, 0, r', seg. unfold remove_hit_step.
  rewrite (bind_Ok _ _ _ _ _ Hrun).
  split; [reflexivity |]. split; [exact Hlog |].
  split; [split; assumption |]. split; reflexivity.
Qed.

Lemma remove_miss_step_total c :
  0 < N c ->
  forall s r, exists h i k r' seg,
    remove_miss_step c s r = Ok (append3 s h i k, r') /\ log r' = log r ++ seg /\
    remove_entry c (h, (i, k)) seg /\ padded (h, (i, k)) /\ h = false.
Proof.
  intros HN s r.
  destruct (draw_miss_key_total c r HN) as (d & r' & Hrun & Hlog & Hkey).
  exists false, 0, (N c + d mod N c + 1), r', [EvU64 d]. unfold remove_miss_step.
  rewrite (bind_Ok _ _ _ _ _ Hrun).
  split; [reflexivity |]. split; [exact Hlog |].
  split; [exists d; repeat split; lia |]. split; reflexivity.
Qed.

Lemma next_f64_run r :
  let d := Z.land (advance (state r) * STAR) MASK64 in
  next_f64 r =
  Ok (unit_float d,
      mkRng (advance (state r)) (log r ++ [EvU64 d; EvF64 (unit_float d)])).
Proof.
  intros d. unfold next_f64, bind, emit, ret. rewrite next_u64_run.
  cbn [state log]. rewrite <- app_assoc. reflexivity.
Qed.

Lemma search_step_total c :
  0 < N c ->
  forall s r, exists h i k r' seg,
    search_step c s r = Ok (append3 s h i k, r') /\ log r' = log r ++ seg /\
    search_entry c (h, (i, k)) seg /\ padded (h, (i, k)) /\ True.
Proof.
  intros HN s r. unfold search_step.
  rewrite (bind_Ok _ _ _ _ _ (next_f64_run r)).
  set (d0 := Z.land (advance (state r) * STAR) MASK64).
  set (r1 := mkRng (advance (state r)) (log r ++ [EvU64 d0; EvF64 (unit_float d0)])).
  destruct (PrimFloat.ltb (unit_float d0) (SEARCH_HIT_RATE c)) eqn:Ehit.
  - destruct (next_usize_total (N c) r1 HN) as (v & r' & seg & Hrun & Hv & Hlog & Hcall).
    exists true, v, 0, r', (EvU64 d0 :: EvF64 (unit_float d0) :: seg).
    rewrite (bind_Ok _ _ _ _ _ Hrun).
    split; [reflexivity |].
    split; [rewrite Hlog; subst r1; cbn [log]; rewrite <- app_assoc; reflexivity |].
    split; [| split; [reflexivity | exact I]].
    exists d0, (unit_float d0), seg.
    split; [reflexivity |]. split; [reflexivity |].
    split; [symmetry; exact Ehit |]. split; assumption.
  - destruct (draw_miss_key_total c r1 HN) as (d & r' & Hrun & Hlog & Hkey).
    exists false, 0, (N c + d mod N c + 1), r',
      (EvU64 d0 :: EvF64 (unit_float d0) :: [EvU64 d]).
    rewrite (bind_Ok _ _ _ _ _ Hrun).
    split; [reflexivity |].
    split; [rewrite Hlog; subst r1; cbn [log]; rewrite <- app_assoc; reflexivity |].
    split; [| split; [reflexivity | exact I]].
    exists d0, (unit_float d0), [EvU64 d].
    split; [reflexivity |]. split; [reflexivity |].
    split; [symmetry; exact Ehit |].
    exists d. split; [reflexivity |]. split; [reflexivity | lia].
Qed.

(** ** The whole build *)

(** For a positive key-domain size the builder runs to completion; the
    facts about its result that the statements below draw on. *)
Lemma generate_data_run_total c :
  0 < N c ->
  exists w r r1 r2 pre rsegs ssegs,
    generate_data_run c = Ok (w, r) /\
    comprehension (range (N c)) (fun _ => rand_char)
      (XorShift64Star_init (SEED c)) = Ok (insert_data w, r1) /\
    length (insert_data w) = Z.to_nat (N c) /\
    shuffle (range (N c)) r1 = Ok (insert_keys w, r2) /\
    Permutation (range (N c)) (insert_keys w) /\
    length (update_indices w) = Z.to_nat (UPDATE_COUNT c) /\
    Forall (fun i => 0 <= i < N c) (update_indices w) /\
    length (update_data w) = Z.to_nat (UPDATE_COUNT c) /\
    remove_is_hit w = repeat true (Z.to_nat (REMOVE_HITS c))
                      ++ repeat false (Z.to_nat (REMOVE_MISSES c)) /\
    length (remove_indices w) = length (remove_is_hit w) /\
    length (remove_miss_keys w) = length (remove_is_hit w) /\
    length (search_is_hit w) = Z.to_nat (SEARCH_COUNT c) /\
    length (search_indices w) = Z.to_nat (SEARCH_COUNT c) /\
    length (search_miss_keys w) = Z.to_nat (SEARCH_COUNT c) /\
    log r = pre ++ concat rsegs ++ concat ssegs /\
    Forall2 (remove_entry c) (remove_ops w) rsegs /\
    Forall2 (search_entry c) (search_ops w) ssegs /\
    Forall padded (remove_ops w) /\
    Forall padded (search_ops w) /\
    n w = N c /\ updates w = UPDATE_COUNT c /\
    removes w = REMOVE_COUNT c /\ searches w = SEARCH_COUNT c.
Proof.
  intros HN. unfold generate_data_run.
  set (r0 := XorShift64Star_init (SEED c)).
  destruct (comprehension_total (fun _ : Z => rand_char) (fun _ => True) (range (N c))
              (fun _ => rand_char_total) r0)
    as (idata & r1 & seg1 & Hrun1 & Hlen1 & _ & Hlog1).
  destruct (shuffle_returns (range (N c)) r1)
    as (order & r2 & seg2 & Hrun2 & Hlog2 & Hperm).
  pose proof (reindex_run (N c) order r2 Hperm) as Hrun3.
  destruct (comprehension_total (fun _ : Z => next_usize (N c))
              (fun v => 0 <= v < N c) (range (UPDATE_COUNT c))) with (r := r2)
    as (uidx & r4 & seg4 & Hrun4 & Hlen4 & Hall4 & Hlog4).
  { intros _ r. destruct (next_usize_total (N c) r HN) as (v & r' & seg & H1 & H2 & H3 & _).
    exists v, r', seg. split; [exact H1 |]. split; [exact H2 | exact H3]. }
  destruct (comprehension_total (fun _ : Z => rand_char) (fun _ => True)
              (range (UPDATE_COUNT c)) (fun _ => rand_char_total) r4)
    as (udata & r5 & seg5 & Hrun5 & Hlen5 & _ & Hlog5).
  destruct (series_loop (remove_hit_step c) (remove_entry c) (fun h => h = true)
              (remove_hit_step_total c HN) (range (REMOVE_HITS c)) (mkSeries [] [] []) r5)
    as (hs6 & is6 & ks6 & r6 & segs6 & Hrun6 & Hh6 & Hi6 & Hk6 & Hlog6 & He6 & Hp6 & Ht6).
  cbn [is_hit indices miss_keys app] in Hrun6.
  destruct (series_loop (remove_miss_step c) (remove_entry c) (fun h => h = false)
              (remove_miss_step_total c HN) (range (REMOVE_MISSES c))
              (mkSeries hs6 is6 ks6) r6)
    as (hs7 & is7 & ks7 & r7 & segs7 & Hrun7 & Hh7 & Hi7 & Hk7 & Hlog7 & He7 & Hp7 & Ht7).
  cbn [is_hit indices miss_keys] in Hrun7.
  destruct (series_loop (search_step c) (search_entry c) (fun _ => True)
              (search_step_total c HN) (range (SEARCH_COUNT c)) (mkSeries [] [] []) r7)
    as (hs8 & is8 & ks8 & r8 & segs8 & Hrun8 & Hh8 & Hi8 & Hk8 & Hlog8 & He8 & Hp8 & _).
  cbn [is_hit indices miss_keys app] in Hrun8.
  rewrite range_length in *.
  rewrite (bind_Ok _ _ _ _ _ Hrun1), (bind_Ok _ _ _ _ _ Hrun2),
    (bind_Ok _ _ _ _ _ Hrun3), (bind_Ok _ _ _ _ _ Hrun4),
    (bind_Ok _ _ _ _ _ Hrun5), (bind_Ok _ _ _ _ _ Hrun6),
    (bind_Ok _ _ _ _ _ Hrun7), (bind_Ok _ _ _ _ _ Hrun8).
  unfold ret. eexists. exists r8, r1, r2.
  exists (seg1 ++ seg2 ++ seg4 ++ seg5), (segs6 ++ segs7), segs8.
  split; [reflexivity |].
  unfold remove_ops, search_ops.
  cbn [insert_keys insert_data update_indices update_data remove_is_hit
       remove_indices remove_miss_keys search_is_hit search_indices
       search_miss_keys n updates removes searches is_hit indices miss_keys].
  rewrite zip3_app by congruence.
  split; [exact Hrun1 |]. split; [exact Hlen1 |].
  split; [exact Hrun2 |]. split; [exact Hperm |].
  split; [exact Hlen4 |]. split; [exact Hall4 |]. split; [exact Hlen5 |].
  split.
  { rewrite (Forall_eq_repeat _ _ Ht6), (Forall_eq_repeat _ _ Ht7), Hh6, Hh7.
    reflexivity. }
  split; [rewrite !length_app; congruence |].
  split; [rewrite !length_app; congruence |].
  split; [exact Hh8 |]. split; [exact Hi8 |]. split; [exact Hk8 |].
  split.
  { rewrite Hlog8, Hlog7, Hlog6, Hlog5, Hlog4, Hlog2, Hlog1.
    subst r0. cbn [XorShift64Star_init log app].
    rewrite concat_app, <- !app_assoc. reflexivity. }
  split; [apply Forall2_app; assumption |].
  split; [exact He8 |].
  split; [apply Forall_app; split; assumption |].
  split; [exact Hp8 |].
  repeat split.
Qed.

Lemma generate_data_of_run c w r :
  generate_data_run c = Ok (w, r) -> generate_data c = Ok w.
Proof. unfold generate_data. intros ->. reflexivity. Qed.

Lemma range_NoDup m : NoDup (range m).
Proof.
  unfold range. apply Injective_map_NoDup; [| apply seq_NoDup].
  intros a b. apply Nat2Z.inj.
Qed.

Lemma Forall2_diag {A} (R : A -> A -> Prop) (l : list A) :
  Forall (fun x => R x x) l -> Forall2 R l l.
Proof. induction 1; constructor; assumption. Qed.

Lemma zip3_nth_error hs : forall ids ks i h,
  length ids = length hs -> length ks = length hs ->
  nth_error hs i = Some h ->
  exists idx key, nth_error ids i = Some idx /\ nth_error ks i = Some key /\
                  In (h, (idx, key)) (zip3 hs ids ks).
Proof.
  induction hs as [|h0 hs IH]; intros [|i0 ids] [|k0 ks] [|i] h Hi Hk E;
    cbn in Hi, Hk, E; try discriminate.
  - injection E as ->. exists i0, k0. repeat split. left. reflexivity.
  - destruct (IH ids ks i h) as (idx & key & H1 & H2 & H3); try congruence.
    exists idx, key. repeat split; try assumption. right. exact H3.
Qed.

(** C5.  For a positive key-domain size [N] the builder returns a workload
    whose [insert_keys] has exactly [N] elements and is a permutation of
    [0..N-1] (no element twice, and exactly the integers of [[0, N)]); it is
    the identity key list read through the index array that [shuffle]
    produced from [0..N-1], the generator being the one left by the [N]
    [rand_char] draws of [insert_data]; [insert_data] has exactly [N]
    elements too. *)
Theorem insert_keys_permutation (c : Config) :
  0 < N c ->
  exists w r1 r2 order,
    generate_data c = Ok w /\
    Z.of_nat (length (insert_keys w)) = N c /\
    Z.of_nat (length (insert_data w)) = N c /\
    Permutation (insert_keys w) (range (N c)) /\
    NoDup (insert_keys w) /\
    (forall k, In k (insert_keys w) <-> 0 <= k < N c) /\
    comprehension (range (N c)) (fun _ => rand_char)
      (XorShift64Star_init (SEED c)) = Ok (insert_data w, r1) /\
    shuffle (range (N c)) r1 = Ok (order, r2) /\
    Forall2 (fun key o => py_getitem (range (N c)) o = Ok key) (insert_keys w) order.
Proof.
  intros HN.
  destruct (generate_data_run_total c HN)
    as (w & r & r1 & r2 & pre & rsegs & ssegs & Hrun & Hdata & Hlen & Hsh & Hperm & _).
  exists w, r1, r2, (insert_keys w).
  split; [eapply generate_data_of_run, Hrun |].
  split; [rewrite <- (Permutation_length Hperm), range_length; lia |].
  split; [lia |].
  split; [apply Permutation_sym, Hperm |].
  split; [eapply Permutation_NoDup; [exact Hperm | apply range_NoDup] |].
  assert (Hin : forall k, In k (insert_keys w) <-> 0 <= k < N c).
  { intros k. rewrite <- range_In. split; apply Permutation_in.
    - apply Permutation_sym, Hperm.
    - exact Hperm. }
  split; [exact Hin |].
  split; [exact Hdata |]. split; [exact Hsh |].
  apply Forall2_diag, Forall_forall. intros o Ho.
  apply range_getitem, Hin, Ho.
Qed.

Lemma insert_keys_permutation_witness :
  exists w, generate_data small_config = Ok w /\
            Permutation (insert_keys w) (range 10) /\
            Z.of_nat (length (insert_data w)) = 10.
Proof.
  destruct (insert_keys_permutation small_config)
    as (w & _ & _ & _ & Hrun & _ & Hd & Hp & _).
  - reflexivity.
  - exists w. split; [exact Hrun |]. split; [exact Hp | exact Hd].
Defined.

(** C6.  For a positive [N] and nonnegative [REMOVE_HITS] and
    [REMOVE_MISSES], the three remove lists have exactly
    [REMOVE_HITS + REMOVE_MISSES] entries; the flags are [REMOVE_HITS] times
    [True] followed by [REMOVE_MISSES] times [False]; and the generator
    calls of the run contain, one block per entry and in order, for a hit
    the events of one [next_usize(N)] call whose result is the entry's index
    (in [[0, N)]) and for a miss one [next_u64] draw [d] with the entry's key
    equal to [N + d % N + 1], which is above [N - 1] and at most [2N]. *)
Theorem remove_series_spec (c : Config) :
  0 < N c -> 0 <= REMOVE_HITS c -> 0 <= REMOVE_MISSES c ->
  exists w r pre segs post,
    generate_data_run c = Ok (w, r) /\
    generate_data c = Ok w /\
    Z.of_nat (length (remove_is_hit w)) = REMOVE_HITS c + REMOVE_MISSES c /\
    Z.of_nat (length (remove_indices w)) = REMOVE_HITS c + REMOVE_MISSES c /\
    Z.of_nat (length (remove_miss_keys w)) = REMOVE_HITS c + REMOVE_MISSES c /\
    remove_is_hit w = repeat true (Z.to_nat (REMOVE_HITS c))
                      ++ repeat false (Z.to_nat (REMOVE_MISSES c)) /\
    log r = pre ++ concat segs ++ post /\
    Forall2 (remove_entry c) (remove_ops w) segs.
Proof.
  intros HN HH HM.
  destruct (generate_data_run_total c HN)
    as (w & r & r1 & r2 & pre & rsegs & ssegs & Hrun & _ & _ & _ & _ & _ & _ & _
        & Hflags & Hli & Hlk & _ & _ & _ & Hlog & Hent & _).
  assert (Hlen : Z.of_nat (length (remove_is_hit w)) = REMOVE_HITS c + REMOVE_MISSES c).
  { rewrite Hflags, length_app, !repeat_length. lia. }
  exists w, r, pre, rsegs, (concat ssegs).
  split; [exact Hrun |].
  split; [eapply generate_data_of_run, Hrun |].
  split; [exact Hlen |]. split; [congruence |]. split; [congruence |].
  split; [exact Hflags |]. split; [exact Hlog | exact Hent].
Qed.

Lemma remove_series_spec_witness :
  exists w, generate_data small_config = Ok w /\
            remove_is_hit w = repeat true 6 ++ repeat false 4.
Proof.
  destruct (remove_series_spec small_config)
    as (w & _ & _ & _ & _ & _ & Hrun & _ & _ & _ & Hflags & _).
  - reflexivity.
  - discriminate.
  - discriminate.
  - exists w. split; [exact Hrun | exact Hflags].
Defined.

(** C7.  For a positive [N] and a nonnegative [SEARCH_COUNT], the three
    search lists have exactly [SEARCH_COUNT] entries, and the generator
    calls of the run end with one block per entry, in order: one [next_f64]
    call, whose value [f] makes the entry a hit exactly when
    [f < SEARCH_HIT_RATE]; then for a hit the events of one [next_usize(N)]
    call whose result is the entry's index (in [[0, N)]), and for a miss one
    [next_u64] draw [d] with the entry's key equal to [N + d % N + 1], which
    is outside [[0, N)]. *)
Theorem search_series_spec (c : Config) :
  0 < N c -> 0 <= SEARCH_COUNT c ->
  exists w r pre segs,
    generate_data_run c = Ok (w, r) /\
    generate_data c = Ok w /\
    Z.of_nat (length (search_is_hit w)) = SEARCH_COUNT c /\
    Z.of_nat (length (search_indices w)) = SEARCH_COUNT c /\
    Z.of_nat (length (search_miss_keys w)) = SEARCH_COUNT c /\
    log r = pre ++ concat segs /\
    Forall2 (search_entry c) (search_ops w) segs.
Proof.
  intros HN HS.
  destruct (generate_data_run_total c HN)
    as (w & r & r1 & r2 & pre & rsegs & ssegs & Hrun & _ & _ & _ & _ & _ & _ & _
        & _ & _ & _ & Hlh & Hli & Hlk & Hlog & _ & Hent & _).
  exists w, r, (pre ++ concat rsegs), ssegs.
  split; [exact Hrun |].
  split; [eapply generate_data_of_run, Hrun |].
  split; [lia |]. split; [lia |]. split; [lia |].
  split; [rewrite Hlog, <- app_assoc; reflexivity | exact Hent].
Qed.

Lemma search_series_spec_witness :
  exists w, generate_data small_config = Ok w /\
            Z.of_nat (length (search_is_hit w)) = 8.
Proof.
  destruct (search_series_spec small_config)
    as (w & _ & _ & _ & _ & Hrun & Hlen & _).
  - reflexivity.
  - discriminate.
  - exists w. split; [exact Hrun | exact Hlen].
Defined.

(** ** Runs in a store *)

Lemma generate_data_body_run c :
  generate_data_body c (XorShift64Star_init (SEED c)) = generate_data_run c.
Proof. reflexivity. Qed.

(** Calls on one generator made as a block are the calls made one after
    the other: same result, same store cell by cell. *)
Lemma call_bind {A B} (g : nat) (m : M A) (k : A -> M B) (h : Store) :
  match call g (bind m k) h with
  | Ok (b, h2) =>
    exists a h1 h2',
      call g m h = Ok (a, h1) /\ call g (k a) h1 = Ok (b, h2') /\
      free h2' = free h2 /\ forall x, cell h2' x = cell h2 x
  | Raise e =>
    call g m h = Raise e \/
    exists a h1, call g m h = Ok (a, h1) /\ call g (k a) h1 = Raise e
  end.
Proof.
  unfold call, bind.
  destruct (m (cell h g)) as [[a o] | e]; [| left; reflexivity].
  destruct (k a o) as [[b o'] | e] eqn:Ek.
  - exists a, (put h g o), (put (put h g o) g o').
    split; [reflexivity |]. cbn [put cell]. rewrite Nat.eqb_refl, Ek.
    split; [reflexivity |]. split; [reflexivity |].
    intros x. destruct (Nat.eqb x g); reflexivity.
  - right. exists a, (put h g o). split; [reflexivity |].
    cbn [put cell]. rewrite Nat.eqb_refl, Ek. reflexivity.
Qed.

(** A run allocates one generator, draws from it alone, and returns what
    [generate_data_run] computes, whatever the store held before. *)
Lemma generate_data_in_run c h :
  generate_data_in c h =
  match generate_data_run c with
  | Ok (w, r) => Ok (w, put (snd (construct (SEED c) h)) (free h) r)
  | Raise e => Raise e
  end.
Proof.
  unfold generate_data_in, construct, call. cbn [cell snd].
  rewrite Nat.eqb_refl, generate_data_body_run.
  destruct (generate_data_run c) as [[w r] | e]; reflexivity.
Qed.

Lemma generate_data_in_value c h :
  value (generate_data_in c h) = generate_data c.
Proof.
  rewrite generate_data_in_run. unfold generate_data.
  destruct (generate_data_run c) as [[w r] | e]; reflexivity.
Qed.

Lemma outputs_of_cons g a d trace :
  outputs_of g ((a, d) :: trace) =
  if Nat.eqb a g then d :: outputs_of g trace else outputs_of g trace.
Proof.
  unfold outputs_of. cbn [filter fst]. destruct (Nat.eqb a g); reflexivity.
Qed.

(** In any interleaving of calls, what a generator returns is what it would
    return alone: its outputs are the first outputs of its own stream, as
    many as the calls made on it. *)
Lemma draw_schedule_streams : forall sched h,
  exists trace h',
    draw_schedule sched h = Ok (trace, h') /\
    forall g, exists r,
      next_u64_seq (count_occ Nat.eq_dec sched g) (cell h g)
      = Ok (outputs_of g trace, r).
Proof.
  induction sched as [|a sched IH]; intros h.
  - exists [], h. split; [reflexivity |]. intros g. exists (cell h g). reflexivity.
  - cbn [draw_schedule]. unfold next_u64_at.
    set (d := Z.land (advance (state (cell h a)) * STAR) MASK64).
    set (o := mkRng (advance (state (cell h a))) (log (cell h a) ++ [EvU64 d])).
    destruct (IH (put h a o)) as (trace & h' & Hrun & Hout).
    rewrite Hrun. exists ((a, d) :: trace), h'. split; [reflexivity |].
    intros g. destruct (Hout g) as (r & Hg). exists r.
    rewrite outputs_of_cons. unfold put in Hg. cbn [cell] in Hg.
    destruct (Nat.eq_dec a g) as [-> | Hne].
    + rewrite Nat.eqb_refl in *. rewrite count_occ_cons_eq by reflexivity.
      rewrite next_u64_seq_succ. fold d. fold o. rewrite Hg. reflexivity.
    + rewrite count_occ_cons_neq by exact Hne.
      assert (E : Nat.eqb g a = false) by (apply Nat.eqb_neq; congruence).
      assert (E' : Nat.eqb a g = false) by (apply Nat.eqb_neq; exact Hne).
      rewrite E in Hg. rewrite E'. exact Hg.
Qed.

(** C8.  Runs and generators live in the store of one process, where a
    generator is an object that every call mutates.  A run of
    [generate_data] constructs its own generator, so in every store its
    outcome is that of [generate_data] and no generator that existed
    before is touched: two runs with the same constants give the same
    workload, series by series, also when the second run follows the first
    in the same process and any calls were made on any generators in
    between.  Two generators constructed one after the other
    from the same seed are distinct objects, and however the calls on them
    (and on other generators) are interleaved, each returns the outputs of
    the stream of that seed, in order: the same sequence for both. *)
Theorem generation_deterministic (c : Config) (h h' : Store) (seed : Z)
    (sched : list nat) :
  value (generate_data_in c h) = generate_data c /\
  value (generate_data_in c h) = value (generate_data_in c h') /\
  (forall w h1,
      generate_data_in c h = Ok (w, h1) ->
      free h1 = S (free h) /\
      forall a, a <> free h -> cell h1 a = cell h a) /\
  (forall w h1 t h2,
      generate_data_in c h = Ok (w, h1) ->
      draw_schedule sched h1 = Ok (t, h2) ->
      exists h3, generate_data_in c h2 = Ok (w, h3)) /\
  (forall g1 h1 g2 h2,
      construct seed h = (g1, h1) ->
      construct seed h1 = (g2, h2) ->
      g1 <> g2 /\
      exists trace h3 r1 r2,
        draw_schedule sched h2 = Ok (trace, h3) /\
        next_u64_seq (count_occ Nat.eq_dec sched g1) (XorShift64Star_init seed)
          = Ok (outputs_of g1 trace, r1) /\
        next_u64_seq (count_occ Nat.eq_dec sched g2) (XorShift64Star_init seed)
          = Ok (outputs_of g2 trace, r2) /\
        (count_occ Nat.eq_dec sched g1 = count_occ Nat.eq_dec sched g2 ->
         outputs_of g1 trace = outputs_of g2 trace)).
Proof.
  split; [apply generate_data_in_value |].
  split; [rewrite !generate_data_in_value; reflexivity |].
  split.
  { intros w h1 Hrun. rewrite generate_data_in_run in Hrun.
    destruct (generate_data_run c) as [[w0 r] | e]; [| discriminate].
    injection Hrun as _ <-. split; [reflexivity |].
    intros a Ha. cbn [put construct snd cell].
    replace (Nat.eqb a (free h)) with false
      by (symmetry; apply Nat.eqb_neq; exact Ha).
    reflexivity. }
  split.
  - intros w h1 t h2 Hrun _.
    pose proof (generate_data_in_value c h) as E1.
    pose proof (generate_data_in_value c h2) as E2.
    rewrite Hrun in E1. cbn [value] in E1. rewrite <- E1 in E2.
    destruct (generate_data_in c h2) as [[w2 h3] | e]; cbn [value] in E2.
    + injection E2 as ->. exists h3. reflexivity.
    + discriminate.
  - intros g1 h1 g2 h2 H1 H2. unfold construct in H1, H2.
    injection H1 as <- <-. cbn [free] in H2. injection H2 as <- <-.
    split; [lia |].
    match goal with |- context [draw_schedule sched ?s] =>
      destruct (draw_schedule_streams sched s) as (trace & h3 & Hrun & Hout) end.
    destruct (Hout (free h)) as (r1 & Hr1).
    destruct (Hout (S (free h))) as (r2 & Hr2).
    cbn [cell] in Hr1, Hr2. rewrite Nat.eqb_refl in Hr2.
    replace (Nat.eqb (free h) (S (free h))) with false in Hr1
      by (symmetry; apply Nat.eqb_neq; lia).
    rewrite Nat.eqb_refl in Hr1.
    exists trace, h3, r1, r2.
    split; [exact Hrun |]. split; [exact Hr1 |]. split; [exact Hr2 |].
    intros Hcount. rewrite Hcount in Hr1. rewrite Hr1 in Hr2.
    injection Hr2 as E _. exact E.
Qed.

Lemma generation_deterministic_witness :
  (exists w h1 t h2 h3,
      generate_data_in small_config empty_store = Ok (w, h1) /\
      draw_schedule [0; 0; 0]%nat h1 = Ok (t, h2) /\
      generate_data_in small_config h2 = Ok (w, h3)) /\
  (exists trace h3,
      draw_schedule [0; 1; 1; 0; 1; 0]%nat
        (snd (construct 5 (snd (construct 5 empty_store)))) = Ok (trace, h3) /\
      outputs_of 0 trace = outputs_of 1 trace).
Proof.
  split.
  - destruct (generation_deterministic small_config empty_store empty_store 0
                [0; 0; 0]%nat) as (_ & _ & _ & Hseq & _).
    destruct (generate_data_in small_config empty_store) as [[w h1] | e] eqn:E.
    + destruct (draw_schedule_streams [0; 0; 0]%nat h1) as (t & h2 & Hd & _).
      destruct (Hseq w h1 t h2 eq_refl Hd) as (h3 & H3).
      exists w, h1, t, h2, h3. split; [reflexivity |]. split; [exact Hd | exact H3].
    + exfalso. vm_compute in E. discriminate E.
  - destruct (generation_deterministic small_config empty_store empty_store 5
                [0; 1; 1; 0; 1; 0]%nat) as (_ & _ & _ & _ & Hgen).
    destruct (Hgen _ _ _ _ eq_refl eq_refl)
      as (_ & trace & h3 & r1 & r2 & Hrun & _ & _ & Heq).
    exists trace, h3. split; [exact Hrun |]. apply Heq. reflexivity.
Defined.

(** Two references to one generator are not two generators: drawing twice
    through an alias gives the alias the second value of the stream, not
    the first. *)
Example aliased_generator_interferes :
  exists d1 d2 h,
    draw_schedule [0; 0]%nat (snd (construct 5 empty_store))
      = Ok ([(0%nat, d1); (0%nat, d2)], h) /\
    d1 <> d2.
Proof.
  eexists. eexists. eexists. split; [vm_compute; reflexivity |].
  vm_compute. discriminate.
Qed.

(** C9 (counterexample).  A configuration with
    [REMOVE_HITS + REMOVE_MISSES <> REMOVE_COUNT] is not rejected: the
    builder returns a workload, with three remove entries and a [removes]
    field of seven. *)
Lemma mismatched_config_accepted :
  REMOVE_HITS mismatched_config + REMOVE_MISSES mismatched_config
    <> REMOVE_COUNT mismatched_config /\
  exists w, generate_data mismatched_config = Ok w /\
            length (remove_is_hit w) = 3%nat /\ removes w = 7.
Proof.
  split; [discriminate |].
  eexists. split; [vm_compute; reflexivity |]. split; reflexivity.
Qed.

(** C9 (as amended).  The builder checks nothing about its configuration:
    for every configuration with a positive [N], whether or not the remove
    split adds up to [REMOVE_COUNT] and whatever the sign of the counts, it
    raises no error and returns a workload; the remove series has as many
    entries as the two loops ran, the counts reported are the configured
    constants, [REMOVE_COUNT] included. *)
Theorem no_configuration_check (c : Config) :
  0 < N c ->
  exists w,
    generate_data c = Ok w /\
    length (remove_is_hit w) =
      (Z.to_nat (REMOVE_HITS c) + Z.to_nat (REMOVE_MISSES c))%nat /\
    length (update_indices w) = Z.to_nat (UPDATE_COUNT c) /\
    length (search_is_hit w) = Z.to_nat (SEARCH_COUNT c) /\
    n w = N c /\ updates w = UPDATE_COUNT c /\
    removes w = REMOVE_COUNT c /\ searches w = SEARCH_COUNT c.
Proof.
  intros HN.
  destruct (generate_data_run_total c HN)
    as (w & r & r1 & r2 & pre & rsegs & ssegs & Hrun & _ & _ & _ & _ & Hlu & _ & _
        & Hflags & _ & _ & Hls & _ & _ & _ & _ & _ & _ & _ & Hn & Hu & Hr & Hs).
  exists w. split; [eapply generate_data_of_run, Hrun |].
  split; [rewrite Hflags, length_app, !repeat_length; reflexivity |].
  repeat split; assumption.
Qed.

Lemma no_configuration_check_witness :
  exists w, generate_data mismatched_config = Ok w /\
            length (remove_is_hit w) = 3%nat /\ removes w = 7.
Proof.
  destruct (no_configuration_check mismatched_config)
    as (w & Hrun & Hlen & _ & _ & _ & _ & Hr & _).
  - reflexivity.
  - exists w. split; [exact Hrun |]. split; [exact Hlen | exact Hr].
Defined.

(** With [N = 0] nothing is rejected up front either: the draws for the
    update series are made first, and the first miss key then fails on
    [% N]. *)
Example zero_domain_fails_late :
  generate_data (mkConfig 0 1 2 1 0 1 0 0.5%float) = Raise ZeroDivisionError.
Proof. vm_compute. reflexivity. Qed.

(** C10.  Each of the remove and search series is three lists of the full
    series length, and the slot an entry does not use holds 0: where the
    flag is [True] the miss-key list holds 0 at that position, where it is
    [False] the index list holds 0. *)
Theorem unused_slots_padded (c : Config) :
  0 < N c -> 0 <= REMOVE_HITS c -> 0 <= REMOVE_MISSES c -> 0 <= SEARCH_COUNT c ->
  exists w,
    generate_data c = Ok w /\
    Z.of_nat (length (remove_is_hit w)) = REMOVE_HITS c + REMOVE_MISSES c /\
    Z.of_nat (length (remove_indices w)) = REMOVE_HITS c + REMOVE_MISSES c /\
    Z.of_nat (length (remove_miss_keys w)) = REMOVE_HITS c + REMOVE_MISSES c /\
    Z.of_nat (length (search_is_hit w)) = SEARCH_COUNT c /\
    Z.of_nat (length (search_indices w)) = SEARCH_COUNT c /\
    Z.of_nat (length (search_miss_keys w)) = SEARCH_COUNT c /\
    (forall i, nth_error (remove_is_hit w) i = Some true ->
               nth_error (remove_miss_keys w) i = Some 0) /\
    (forall i, nth_error (remove_is_hit w) i = Some false ->
               nth_error (remove_indices w) i = Some 0) /\
    (forall i, nth_error (search_is_hit w) i = Some true ->
               nth_error (search_miss_keys w) i = Some 0) /\
    (forall i, nth_error (search_is_hit w) i = Some false ->
               nth_error (search_indices w) i = Some 0).
Proof.
  intros HN HH HM HS.
  destruct (generate_data_run_total c HN)
    as (w & r & r1 & r2 & pre & rsegs & ssegs & Hrun & _ & _ & _ & _ & _ & _ & _
        & Hflags & Hri & Hrk & Hsh & Hsi & Hsk & _ & _ & _ & Hpr & Hps & _).
  assert (Hlen : Z.of_nat (length (remove_is_hit w)) = REMOVE_HITS c + REMOVE_MISSES c).
  { rewrite Hflags, length_app, !repeat_length. lia. }
  assert (Hslot : forall hs ids ks i h,
             length ids = length hs -> length ks = length hs ->
             Forall padded (zip3 hs ids ks) ->
             nth_error hs i = Some h ->
             if h then nth_error ks i = Some 0 else nth_error ids i = Some 0).
  { intros hs ids ks i h Hi Hk Hall E.
    destruct (zip3_nth_error hs ids ks i h Hi Hk E) as (idx & key & E1 & E2 & Hin).
    rewrite Forall_forall in Hall. specialize (Hall _ Hin). cbn in Hall.
    destruct h; congruence. }
  exists w. split; [eapply generate_data_of_run, Hrun |].
  split; [exact Hlen |]. split; [congruence |]. split; [congruence |].
  split; [lia |]. split; [lia |]. split; [lia |].
  split; [intros i E; exact (Hslot _ _ _ i true Hri Hrk Hpr E) |].
  split; [intros i E; exact (Hslot _ _ _ i false Hri Hrk Hpr E) |].
  split; [intros i E;
          exact (Hslot _ _ _ i true (eq_trans Hsi (eq_sym Hsh))
                   (eq_trans Hsk (eq_sym Hsh)) Hps E) |].
  intros i E.
  exact (Hslot _ _ _ i false (eq_trans Hsi (eq_sym Hsh))
           (eq_trans Hsk (eq_sym Hsh)) Hps E).
Qed.

Lemma unused_slots_padded_witness :
  exists w, generate_data small_config = Ok w /\
            nth_error (remove_miss_keys w) 0 = Some 0 /\
            nth_error (remove_indices w) 6 = Some 0.
Proof.
  destruct (unused_slots_padded small_config)
    as (w & Hrun & _ & _ & _ & _ & _ & _ & Hrt & Hrf & _ & _).
  - reflexivity.
  - discriminate.
  - discriminate.
  - discriminate.
  - exists w. split; [exact Hrun |].
    assert (E : generate_data small_config = Ok w) by exact Hrun.
    vm_compute in E. injection E as <-.
    split; [apply Hrt | apply Hrf]; reflexivity.
Defined.

(** * Further properties of the generator *)

Lemma lxor_range k a b :
  0 <= k -> 0 <= a < 2 ^ k -> 0 <= b < 2 ^ k -> 0 <= Z.lxor a b < 2 ^ k.
Proof.
  intros Hk Ha Hb.
  assert (E : Z.lxor a b = Z.lxor a b mod 2 ^ k).
  { rewrite <- !Z.land_ones by exact Hk. rewrite land_lxor_l.
    rewrite !Z.land_ones by exact Hk. rewrite !Z.mod_small by assumption.
    reflexivity. }
  rewrite E. apply Z.mod_pos_bound. apply Z.pow_pos_nonneg; lia.
Qed.

Lemma xor_select_range cols : forall s,
  Forall (fun col => 0 <= col < 2 ^ 64) cols -> 0 <= xor_select cols s < 2 ^ 64.
Proof.
  induction cols as [|col cols IH]; intros s Hall; cbn [xor_select]; [lia |].
  inversion Hall as [|? ? Hcol Hrest]; subst.
  apply lxor_range; [lia | destruct (Z.odd s); lia | apply IH, Hrest].
Qed.

Lemma retreat_range s : 0 <= retreat s < 2 ^ 64.
Proof.
  apply xor_select_range. unfold retreat_columns.
  repeat (constructor; [split; [discriminate | reflexivity] |]). constructor.
Qed.

Lemma advance_retreat_pow2 (k : nat) :
  (k < 64)%nat -> advance (retreat (2 ^ Z.of_nat k)) = 2 ^ Z.of_nat k.
Proof.
  intros Hk.
  assert (Hall : forallb (fun i => advance (retreat (2 ^ Z.of_nat i)) =? 2 ^ Z.of_nat i)
                         (seq 0 64) = true) by (vm_compute; reflexivity).
  rewrite forallb_forall in Hall.
  apply Z.eqb_eq, Hall, in_seq. lia.
Qed.

Lemma advance_retreat_bounded (k : nat) : forall y,
  (k <= 64)%nat -> 0 <= y < 2 ^ Z.of_nat k -> advance (retreat y) = y.
Proof.
  induction k as [|k IH]; intros y Hk Hy.
  - assert (y = 0) by (cbn in Hy; lia). subst y. reflexivity.
  - assert (Hlow : 0 <= y mod 2 ^ Z.of_nat k < 2 ^ Z.of_nat k)
      by (apply Z.mod_pos_bound, Z.pow_pos_nonneg; lia).
    destruct (split_top_bit k y Hy) as [E | E]; rewrite E.
    + apply IH; [lia | exact Hlow].
    + unfold retreat. rewrite xor_select_lxor, advance_lxor.
      fold (retreat (y mod 2 ^ Z.of_nat k)). fold (retreat (2 ^ Z.of_nat k)).
      rewrite IH by (try lia; exact Hlow).
      rewrite advance_retreat_pow2 by lia. reflexivity.
Qed.

(** X1.  The state update of [next_u64] permutes the 64-bit words: two
    different states never lead to the same state, every state is reached
    from some state, and zero is the only state that leads to zero. *)
Theorem advance_permutes_words (x y : Z) :
  0 <= x < 2 ^ 64 -> 0 <= y < 2 ^ 64 ->
  (advance x = advance y -> x = y) /\
  (exists z, 0 <= z < 2 ^ 64 /\ advance z = y) /\
  (advance x = 0 <-> x = 0).
Proof.
  intros Hx Hy. split; [| split].
  - intros E. rewrite <- (retreat_advance x Hx), <- (retreat_advance y Hy), E.
    reflexivity.
  - exists (retreat y). split; [apply retreat_range |].
    apply (advance_retreat_bounded 64); [lia | exact Hy].
  - split.
    + intros E. rewrite <- (retreat_advance x Hx), E. reflexivity.
    + intros ->. reflexivity.
Qed.

Lemma advance_permutes_words_witness :
  (advance 5 = advance 9 -> 5 = 9) /\
  (exists z, 0 <= z < 2 ^ 64 /\ advance z = 9) /\
  (advance 5 = 0 <-> 5 = 0).
Proof.
  apply (advance_permutes_words 5 9); split; (discriminate || reflexivity).
Defined.

(** X2.  Whatever integer the state holds (the constructor does not reduce
    the seed, so it may be negative or wider than 64 bits), every value
    [next_u64] returns is a 64-bit word, and from the first call on so is
    the state. *)
Theorem next_u64_outputs_are_words (k : nat) (r : XorShift64Star) :
  exists outs r',
    next_u64_seq (S k) r = Ok (outs, r') /\
    length outs = S k /\
    Forall (fun d => 0 <= d < 2 ^ 64) outs /\
    0 <= state r' < 2 ^ 64.
Proof.
  revert r. induction k as [|k IH]; intros r.
  - rewrite next_u64_seq_succ. cbn. eexists. eexists.
    split; [reflexivity |]. split; [reflexivity |].
    split; [| apply advance_range].
    constructor; [| constructor].
    rewrite land_MASK64. apply Z.mod_pos_bound. lia.
  - rewrite next_u64_seq_succ.
    destruct (IH (mkRng (advance (state r))
                    (log r ++ [EvU64 (Z.land (advance (state r) * STAR) MASK64)])))
      as (outs & r' & Hrun & Hlen & Hall & Hst).
    rewrite Hrun. eexists. exists r'.
    split; [reflexivity |]. split; [cbn; congruence |].
    split; [| exact Hst].
    constructor; [| exact Hall].
    rewrite land_MASK64. apply Z.mod_pos_bound. lia.
Qed.

(** X3.  On a state below [2^39] no bit is shifted out of the 64-bit word,
    and the state update agrees with the xorshift64 recurrence whose steps
    are each reduced modulo [2^64]. *)
Theorem advance_agrees_below_2_39 (x : Z) :
  0 <= x < 2 ^ 39 -> advance x = xorshift64_reference x.
Proof.
  intros Hx. unfold advance, xorshift64_reference.
  set (x1 := Z.lxor x (Z.shiftr x 12)).
  assert (H1 : 0 <= x1 < 2 ^ 39).
  { apply lxor_range; [lia | exact Hx |].
    rewrite Z.shiftr_div_pow2 by lia. split.
    - apply Z.div_pos; lia.
    - apply Z.le_lt_trans with x; [| lia].
      apply Z.div_le_upper_bound; lia. }
  rewrite (Z.mod_small x1) by lia.
  set (x2 := Z.lxor x1 (Z.shiftl x1 25)).
  assert (H2 : 0 <= x2 < 2 ^ 64).
  { apply lxor_range; [lia | lia |].
    rewrite Z.shiftl_mul_pow2 by lia.
    change (2 ^ 64) with (2 ^ 39 * 2 ^ 25). split; [lia |].
    apply Z.mul_lt_mono_pos_r; lia. }
  rewrite (Z.mod_small x2) by lia.
  set (x3 := Z.lxor x2 (Z.shiftr x2 27)).
  assert (H3 : 0 <= x3 < 2 ^ 64).
  { apply lxor_range; [lia | exact H2 |].
    rewrite Z.shiftr_div_pow2 by lia. split.
    - apply Z.div_pos; lia.
    - apply Z.le_lt_trans with x2; [| lia].
      apply Z.div_le_upper_bound; lia. }
  rewrite land_MASK64, !(Z.mod_small x3) by lia. reflexivity.
Qed.

Lemma advance_agrees_below_2_39_witness :
  advance 123456789 = xorshift64_reference 123456789.
Proof.
  apply (advance_agrees_below_2_39 123456789). split; (discriminate || reflexivity).
Defined.

(** X4.  [rand_char] makes one [next_u64] draw [d] and returns the
    character with code [ord('a') + d % 26], which is one of the 26
    lowercase letters. *)
Theorem rand_char_lowercase (r : XorShift64Star) :
  exists d r1 r',
    next_u64 r = Ok (d, r1) /\
    rand_char r = Ok (letter d, r') /\
    state r' = state r1 /\
    log r' = log r ++ [EvU64 d; EvChar (letter d)] /\
    Z.of_N (N_of_ascii (letter d)) = 97 + d mod 26 /\
    lowercase (letter d).
Proof.
  eexists. eexists. eexists. split; [apply next_u64_run |].
  unfold rand_char, bind, emit, ret. rewrite next_u64_run. cbn [state log].
  split; [reflexivity |]. split; [reflexivity |].
  split; [rewrite <- app_assoc; reflexivity |].
  set (d := Z.land (advance (state r) * STAR) MASK64).
  pose proof (Z.mod_pos_bound d 26 ltac:(lia)) as Hm.
  assert (E : N_of_ascii (letter d) = Z.to_N (97 + d mod 26)).
  { unfold letter. apply N_ascii_embedding.
    change (Z.of_N (N_of_ascii "a")) with 97. lia. }
  split; [rewrite E; lia |].
  unfold lowercase. rewrite E.
  change (N_of_ascii "a") with 97%N. change (N_of_ascii "z") with 122%N. lia.
Qed.

(** X5.  An array with at most one element is left as it is by [shuffle],
    and so is the generator: no draw is made. *)
Theorem shuffle_short_array {A} (array : list A) (r : XorShift64Star) :
  (length array <= 1)%nat -> shuffle array r = Ok (array, r).
Proof.
  intros Hlen. unfold shuffle, range_down.
  replace (Z.to_nat (Z.of_nat (length array) - 1 - 0)) with O by lia.
  reflexivity.
Qed.

Lemma shuffle_short_array_witness :
  shuffle [42] (XorShift64Star_init 7) = Ok ([42], XorShift64Star_init 7).
Proof. apply (shuffle_short_array [42] (XorShift64Star_init 7)). cbn. lia. Defined.

(** * Further properties of the builder *)

Lemma bind_inv {A B} (m : M A) (k : A -> M B) r b r'' :
  bind m k r = Ok (b, r'') ->
  exists a r', m r = Ok (a, r') /\ k a r' = Ok (b, r'').
Proof.
  unfold bind. destruct (m r) as [[a r'] | e]; [| discriminate].
  intros H. exists a, r'. split; [reflexivity | exact H].
Qed.

Lemma next_usize_returns bound r :
  exists v r', next_usize bound r = Ok (v, r').
Proof.
  destruct (Z.le_gt_cases bound 1) as [H | H].
  - eexists. eexists. apply next_usize_low, H.
  - eexists. eexists. apply next_usize_high. lia.
Qed.

Lemma next_usize_total_log bound r :
  exists v r' seg, next_usize bound r = Ok (v, r') /\ log r' = log r ++ seg.
Proof.
  destruct (Z.le_gt_cases bound 1) as [H | H].
  - eexists. eexists. eexists. rewrite next_usize_low by exact H.
    split; reflexivity.
  - eexists. eexists. eexists. rewrite next_usize_high by lia.
    split; reflexivity.
Qed.

(** The part of [generate_data] that builds the insert and update series
    cannot fail, whatever the configuration. *)
Lemma generate_data_run_prefix c :
  exists idata r1 order r2 uidx r4 udata r5,
    comprehension (range (N c)) (fun _ => rand_char)
      (XorShift64Star_init (SEED c)) = Ok (idata, r1) /\
    shuffle (range (N c)) r1 = Ok (order, r2) /\
    Permutation (range (N c)) order /\
    comprehension (range (UPDATE_COUNT c)) (fun _ => next_usize (N c)) r2
      = Ok (uidx, r4) /\
    comprehension (range (UPDATE_COUNT c)) (fun _ => rand_char) r4
      = Ok (udata, r5) /\
    generate_data_run c = build_series c order idata uidx udata r5.
Proof.
  destruct (comprehension_total (fun _ : Z => rand_char) (fun _ => True) (range (N c))
              (fun _ => rand_char_total) (XorShift64Star_init (SEED c)))
    as (idata & r1 & seg1 & Hrun1 & _).
  destruct (shuffle_returns (range (N c)) r1)
    as (order & r2 & seg2 & Hrun2 & _ & Hperm).
  pose proof (reindex_run (N c) order r2 Hperm) as Hrun3.
  destruct (comprehension_total (fun _ : Z => next_usize (N c))
              (fun _ => True) (range (UPDATE_COUNT c))) with (r := r2)
    as (uidx & r4 & seg4 & Hrun4 & _).
  { intros _ r. destruct (next_usize_total_log (N c) r) as (v & r' & seg & H1 & H2).
    exists v, r', seg. split; [exact H1 |]. split; [exact I | exact H2]. }
  destruct (comprehension_total (fun _ : Z => rand_char) (fun _ => True)
              (range (UPDATE_COUNT c)) (fun _ => rand_char_total) r4)
    as (udata & r5 & seg5 & Hrun5 & _).
  exists idata, r1, order, r2, uidx, r4, udata, r5.
  split; [exact Hrun1 |]. split; [exact Hrun2 |]. split; [exact Hperm |].
  split; [exact Hrun4 |]. split; [exact Hrun5 |].
  unfold generate_data_run.
  rewrite (bind_Ok _ _ _ _ _ Hrun1), (bind_Ok _ _ _ _ _ Hrun2),
    (bind_Ok _ _ _ _ _ Hrun3), (bind_Ok _ _ _ _ _ Hrun4),
    (bind_Ok _ _ _ _ _ Hrun5).
  reflexivity.
Qed.

Lemma bind_no_IndexError {A B} (m : M A) (k : A -> M B) r :
  m r <> Raise IndexError ->
  (forall a r', k a r' <> Raise IndexError) ->
  bind m k r <> Raise IndexError.
Proof.
  intros Hm Hk. unfold bind. destruct (m r) as [[a r'] | e].
  - apply Hk.
  - intros E. apply Hm. injection E as ->. reflexivity.
Qed.

Lemma for_each_no_IndexError {A S} (body : A -> S -> M S) :
  (forall x s r, body x s r <> Raise IndexError) ->
  forall xs s r, for_each xs body s r <> Raise IndexError.
Proof.
  intros Hbody. induction xs as [|x xs IH]; intros s r; cbn [for_each].
  - discriminate.
  - apply bind_no_IndexError; [apply Hbody | intros; apply IH].
Qed.

Lemma for_each_returns {A S} (body : A -> S -> M S) :
  (forall x s r, exists s' r', body x s r = Ok (s', r')) ->
  forall xs s r, exists s' r', for_each xs body s r = Ok (s', r').
Proof.
  intros Hbody. induction xs as [|x xs IH]; intros s r; cbn [for_each].
  - exists s, r. reflexivity.
  - destruct (Hbody x s r) as (s1 & r1 & H1).
    rewrite (bind_Ok _ _ _ _ _ H1). apply IH.
Qed.

(** [draw_miss_key] fails exactly when [N] is 0, on the division. *)
Lemma draw_miss_key_cases c r :
  (N c <> 0 -> exists key r', draw_miss_key c r = Ok (key, r')) /\
  (N c = 0 -> draw_miss_key c r = Raise ZeroDivisionError).
Proof.
  unfold draw_miss_key, bind, lift, ret, py_mod. rewrite next_u64_run.
  destruct (Z.eqb_spec (N c) 0) as [E | E]; split; intros H;
    try contradiction; try reflexivity.
  eexists. eexists. reflexivity.
Qed.

Lemma remove_hit_step_returns c s r :
  exists s' r', remove_hit_step c s r = Ok (s', r').
Proof.
  unfold remove_hit_step.
  destruct (next_usize_returns (N c) r) as (v & r' & H).
  rewrite (bind_Ok _ _ _ _ _ H). eexists. eexists. reflexivity.
Qed.

Lemma remove_miss_step_returns c s r :
  N c <> 0 -> exists s' r', remove_miss_step c s r = Ok (s', r').
Proof.
  intros HN. unfold remove_miss_step.
  destruct (proj1 (draw_miss_key_cases c r) HN) as (key & r' & H).
  rewrite (bind_Ok _ _ _ _ _ H). eexists. eexists. reflexivity.
Qed.

Lemma search_step_returns c s r :
  N c <> 0 -> exists s' r', search_step c s r = Ok (s', r').
Proof.
  intros HN. unfold search_step.
  rewrite (bind_Ok _ _ _ _ _ (next_f64_run r)).
  destruct (PrimFloat.ltb _ _).
  - destruct (next_usize_returns (N c)
                (mkRng (advance (state r))
                   (log r ++ [EvU64 (Z.land (advance (state r) * STAR) MASK64);
                              EvF64 (unit_float (Z.land (advance (state r) * STAR) MASK64))])))
      as (v & r' & H).
    rewrite (bind_Ok _ _ _ _ _ H). eexists. eexists. reflexivity.
  - match goal with |- context [bind (draw_miss_key c) _ ?g] =>
      destruct (proj1 (draw_miss_key_cases c g) HN) as (key & r' & H) end.
    rewrite (bind_Ok _ _ _ _ _ H). eexists. eexists. reflexivity.
Qed.

Lemma draw_miss_key_no_IndexError c r : draw_miss_key c r <> Raise IndexError.
Proof.
  destruct (Z.eq_dec (N c) 0) as [E | E].
  - rewrite (proj2 (draw_miss_key_cases c r) E). discriminate.
  - destruct (proj1 (draw_miss_key_cases c r) E) as (key & r' & ->). discriminate.
Qed.

Lemma remove_hit_step_no_IndexError c s r :
  remove_hit_step c s r <> Raise IndexError.
Proof.
  destruct (remove_hit_step_returns c s r) as (s' & r' & ->). discriminate.
Qed.

Lemma remove_miss_step_no_IndexError c s r :
  remove_miss_step c s r <> Raise IndexError.
Proof.
  unfold remove_miss_step. apply bind_no_IndexError.
  - apply draw_miss_key_no_IndexError.
  - discriminate.
Qed.

Lemma search_step_no_IndexError c s r :
  search_step c s r <> Raise IndexError.
Proof.
  unfold search_step. rewrite (bind_Ok _ _ _ _ _ (next_f64_run r)).
  destruct (PrimFloat.ltb _ _).
  - match goal with |- context [bind (next_usize ?b) _ ?g] =>
      destruct (next_usize_returns b g) as (v & r' & H) end.
    rewrite (bind_Ok _ _ _ _ _ H). discriminate.
  - apply bind_no_IndexError.
    + apply draw_miss_key_no_IndexError.
    + discriminate.
Qed.

Lemma build_series_no_IndexError c keys idata uidx udata r :
  build_series c keys idata uidx udata r <> Raise IndexError.
Proof.
  unfold build_series.
  apply bind_no_IndexError.
  { apply for_each_no_IndexError. intros. apply remove_hit_step_no_IndexError. }
  intros rem1 r1. apply bind_no_IndexError.
  { apply for_each_no_IndexError. intros. apply remove_miss_step_no_IndexError. }
  intros rem2 r2. apply bind_no_IndexError.
  { apply for_each_no_IndexError. intros. apply search_step_no_IndexError. }
  discriminate.
Qed.

Lemma build_series_returns c keys idata uidx udata r :
  N c <> 0 -> exists w r', build_series c keys idata uidx udata r = Ok (w, r').
Proof.
  intros HN. unfold build_series.
  destruct (for_each_returns (fun _ : Z => remove_hit_step c)
              (fun _ => remove_hit_step_returns c) (range (REMOVE_HITS c))
              (mkSeries [] [] []) r) as (rem1 & r1 & H1).
  rewrite (bind_Ok _ _ _ _ _ H1).
  destruct (for_each_returns (fun _ : Z => remove_miss_step c)
              (fun _ s g => remove_miss_step_returns c s g HN)
              (range (REMOVE_MISSES c)) rem1 r1) as (rem2 & r2 & H2).
  rewrite (bind_Ok _ _ _ _ _ H2).
  destruct (for_each_returns (fun _ : Z => search_step c)
              (fun _ s g => search_step_returns c s g HN)
              (range (SEARCH_COUNT c)) (mkSeries [] [] []) r2) as (sea & r3 & H3).
  rewrite (bind_Ok _ _ _ _ _ H3).
  eexists. eexists. reflexivity.
Qed.

Lemma build_series_zero_domain c keys idata uidx udata r :
  N c = 0 -> 0 < REMOVE_MISSES c ->
  build_series c keys idata uidx udata r = Raise ZeroDivisionError.
Proof.
  intros HN HM. unfold build_series.
  destruct (for_each_returns (fun _ : Z => remove_hit_step c)
              (fun _ => remove_hit_step_returns c) (range (REMOVE_HITS c))
              (mkSeries [] [] []) r) as (rem1 & r1 & H1).
  rewrite (bind_Ok _ _ _ _ _ H1).
  unfold range. destruct (Z.to_nat (REMOVE_MISSES c)) as [|m] eqn:E; [lia |].
  cbn [seq map for_each]. unfold bind at 1. unfold bind at 1.
  unfold remove_miss_step. unfold bind at 1.
  rewrite (proj2 (draw_miss_key_cases c r1) HN). reflexivity.
Qed.

(** X6.  The only way [generate_data] can fail is the division by [N] in a
    miss key: it returns a workload whenever [N] is not 0, it never raises
    [IndexError] (the shuffle and the re-indexing stay within bounds for
    every configuration), and with [N = 0] and at least one remove miss it
    raises [ZeroDivisionError]. *)
Theorem generate_data_failure_modes (c : Config) :
  (N c <> 0 -> exists w, generate_data c = Ok w) /\
  generate_data c <> Raise IndexError /\
  (N c = 0 -> 0 < REMOVE_MISSES c ->
   generate_data c = Raise ZeroDivisionError).
Proof.
  destruct (generate_data_run_prefix c)
    as (idata & r1 & order & r2 & uidx & r4 & udata & r5 & _ & _ & _ & _ & _ & Hrun).
  unfold generate_data. rewrite Hrun. split; [| split].
  - intros HN.
    destruct (build_series_returns c order idata uidx udata r5 HN) as (w & r' & ->).
    exists w. reflexivity.
  - pose proof (build_series_no_IndexError c order idata uidx udata r5) as H.
    destruct (build_series c order idata uidx udata r5) as [[w r'] | e].
    + discriminate.
    + intros E. apply H. injection E as ->. reflexivity.
  - intros HN HM.
    rewrite (build_series_zero_domain c order idata uidx udata r5 HN HM).
    reflexivity.
Qed.

Lemma generate_data_failure_modes_witness :
  (exists w, generate_data (mkConfig (-3) 1 2 3 2 1 2 0.5%float) = Ok w) /\
  generate_data (mkConfig 0 1 2 3 2 1 2 0.5%float) = Raise ZeroDivisionError.
Proof.
  split.
  - apply (proj1 (generate_data_failure_modes (mkConfig (-3) 1 2 3 2 1 2 0.5%float))).
    discriminate.
  - apply (proj2 (proj2 (generate_data_failure_modes (mkConfig 0 1 2 3 2 1 2 0.5%float)))).
    + reflexivity.
    + reflexivity.
Defined.

Lemma build_series_inv c keys idata uidx udata r w r' :
  build_series c keys idata uidx udata r = Ok (w, r') ->
  exists rem1 r6 rem2 r7 sea,
    for_each (range (REMOVE_HITS c)) (fun _ => remove_hit_step c)
      (mkSeries [] [] []) r = Ok (rem1, r6) /\
    for_each (range (REMOVE_MISSES c)) (fun _ => remove_miss_step c) rem1 r6
      = Ok (rem2, r7) /\
    for_each (range (SEARCH_COUNT c)) (fun _ => search_step c)
      (mkSeries [] [] []) r7 = Ok (sea, r') /\
    w = mkWorkload keys idata uidx udata
          (is_hit rem2) (indices rem2) (miss_keys rem2)
          (is_hit sea) (indices sea) (miss_keys sea)
          (N c) (UPDATE_COUNT c) (REMOVE_COUNT c) (SEARCH_COUNT c).
Proof.
  unfold build_series. intros H.
  apply bind_inv in H. destruct H as (rem1 & r6 & H1 & H).
  apply bind_inv in H. destruct H as (rem2 & r7 & H2 & H).
  apply bind_inv in H. destruct H as (sea & r8 & H3 & H).
  unfold ret in H. injection H as <- <-.
  exists rem1, r6, rem2, r7, sea. repeat split; assumption.
Qed.

(** The phases of a build that returned, with the generator between them. *)
Lemma generate_data_run_phases c w r :
  generate_data_run c = Ok (w, r) ->
  exists r1 r2 r4 r5 rem1 r6 rem2 r7 sea,
    comprehension (range (N c)) (fun _ => rand_char)
      (XorShift64Star_init (SEED c)) = Ok (insert_data w, r1) /\
    shuffle (range (N c)) r1 = Ok (insert_keys w, r2) /\
    comprehension (range (UPDATE_COUNT c)) (fun _ => next_usize (N c)) r2
      = Ok (update_indices w, r4) /\
    comprehension (range (UPDATE_COUNT c)) (fun _ => rand_char) r4
      = Ok (update_data w, r5) /\
    for_each (range (REMOVE_HITS c)) (fun _ => remove_hit_step c)
      (mkSeries [] [] []) r5 = Ok (rem1, r6) /\
    for_each (range (REMOVE_MISSES c)) (fun _ => remove_miss_step c) rem1 r6
      = Ok (rem2, r7) /\
    for_each (range (SEARCH_COUNT c)) (fun _ => search_step c)
      (mkSeries [] [] []) r7 = Ok (sea, r).
Proof.
  intros Hrun.
  destruct (generate_data_run_prefix c)
    as (idata & r1 & order & r2 & uidx & r4 & udata & r5
        & H1 & H2 & _ & H4 & H5 & Heq).
  rewrite Heq in Hrun.
  destruct (build_series_inv _ _ _ _ _ _ _ _ Hrun)
    as (rem1 & r6 & rem2 & r7 & sea & H6 & H7 & H8 & ->).
  cbn [insert_data insert_keys update_indices update_data].
  exists r1, r2, r4, r5, rem1, r6, rem2, r7, sea.
  repeat split; assumption.
Qed.

Lemma comprehension_Forall {A B} (f : A -> M B) (P : B -> Prop) :
  (forall x r y r', f x r = Ok (y, r') -> P y) ->
  forall xs r ys r', comprehension xs f r = Ok (ys, r') -> Forall P ys.
Proof.
  intros Hf. induction xs as [|x xs IH]; intros r ys r' H; cbn [comprehension] in H.
  - unfold ret in H. injection H as <- _. constructor.
  - apply bind_inv in H. destruct H as (y & r1 & H1 & H).
    apply bind_inv in H. destruct H as (ys' & r2 & H2 & H).
    unfold ret in H. injection H as <- _.
    constructor; [eapply Hf, H1 | eapply IH, H2].
Qed.

Lemma letter_lowercase d : lowercase (letter d).
Proof.
  pose proof (Z.mod_pos_bound d 26 ltac:(lia)) as Hm.
  assert (E : N_of_ascii (letter d) = Z.to_N (97 + d mod 26)).
  { unfold letter. apply N_ascii_embedding.
    change (Z.of_N (N_of_ascii "a")) with 97. lia. }
  unfold lowercase. rewrite E.
  change (N_of_ascii "a") with 97%N. change (N_of_ascii "z") with 122%N. lia.
Qed.

Lemma rand_char_run r :
  let d := Z.land (advance (state r) * STAR) MASK64 in
  rand_char r =
  Ok (letter d, mkRng (advance (state r)) (log r ++ [EvU64 d; EvChar (letter d)])).
Proof.
  intros d. unfold rand_char, bind, emit, ret. rewrite next_u64_run.
  cbn [state log]. rewrite <- app_assoc. reflexivity.
Qed.

Lemma rand_char_result_lowercase (x : Z) r ch r' :
  rand_char r = Ok (ch, r') -> lowercase ch.
Proof.
  rewrite rand_char_run. intros H. injection H as <- _. apply letter_lowercase.
Qed.

Lemma Forall2_Forall_l {A B} (R : A -> B -> Prop) (P : A -> Prop) l l' :
  (forall a b, R a b -> P a) -> Forall2 R l l' -> Forall P l.
Proof.
  intros HRP. induction 1; constructor; [eapply HRP; eassumption | assumption].
Qed.

(** X7.  For a positive [N] and a nonnegative [UPDATE_COUNT], the update
    series has exactly [UPDATE_COUNT] indices, all in [[0, N)], and as many
    payload characters; every payload character of the update and of the
    insert series is a lowercase letter. *)
Theorem update_series_spec (c : Config) :
  0 < N c -> 0 <= UPDATE_COUNT c ->
  exists w,
    generate_data c = Ok w /\
    Z.of_nat (length (update_indices w)) = UPDATE_COUNT c /\
    Z.of_nat (length (update_data w)) = UPDATE_COUNT c /\
    Forall (fun i => 0 <= i < N c) (update_indices w) /\
    Forall lowercase (update_data w) /\
    Forall lowercase (insert_data w).
Proof.
  intros HN HU.
  destruct (generate_data_run_total c HN)
    as (w & r & r1 & r2 & pre & rsegs & ssegs & Hrun & _ & _ & _ & _
        & Hlu & Hall & Hld & _).
  destruct (generate_data_run_phases c w r Hrun)
    as (g1 & g2 & g4 & g5 & rem1 & g6 & rem2 & g7 & sea & H1 & _ & _ & H5 & _).
  exists w. split; [eapply generate_data_of_run, Hrun |].
  split; [lia |]. split; [lia |]. split; [exact Hall |].
  split.
  - eapply comprehension_Forall; [| exact H5].
    intros x. apply (rand_char_result_lowercase x).
  - eapply comprehension_Forall; [| exact H1].
    intros x. apply (rand_char_result_lowercase x).
Qed.

Lemma update_series_spec_witness :
  exists w, generate_data small_config = Ok w /\
            Z.of_nat (length (update_indices w)) = 3 /\
            Forall lowercase (insert_data w).
Proof.
  destruct (update_series_spec small_config) as (w & Hrun & Hl & _ & _ & _ & Hi).
  - reflexivity.
  - discriminate.
  - exists w. split; [exact Hrun |]. split; [exact Hl | exact Hi].
Defined.

(** X8.  The counts [n], [updates] and [searches] returned with the
    workload are the lengths of its insert, update and search lists; the
    count [removes] is [REMOVE_COUNT] as configured, so it is the length of
    the remove lists exactly when [REMOVE_HITS + REMOVE_MISSES] equals
    [REMOVE_COUNT]. *)
Theorem reported_counts (c : Config) :
  0 < N c -> 0 <= UPDATE_COUNT c -> 0 <= REMOVE_HITS c ->
  0 <= REMOVE_MISSES c -> 0 <= SEARCH_COUNT c ->
  exists w,
    generate_data c = Ok w /\
    n w = Z.of_nat (length (insert_keys w)) /\
    n w = Z.of_nat (length (insert_data w)) /\
    updates w = Z.of_nat (length (update_indices w)) /\
    updates w = Z.of_nat (length (update_data w)) /\
    searches w = Z.of_nat (length (search_is_hit w)) /\
    (removes w = Z.of_nat (length (remove_is_hit w)) <->
     REMOVE_HITS c + REMOVE_MISSES c = REMOVE_COUNT c).
Proof.
  intros HN HU HH HM HS.
  destruct (generate_data_run_total c HN)
    as (w & r & r1 & r2 & pre & rsegs & ssegs & Hrun & _ & Hli & _ & Hperm
        & Hlu & _ & Hld & Hflags & _ & _ & Hls & _ & _ & _ & _ & _ & _ & _
        & Hn & Hu & Hr & Hs).
  exists w. split; [eapply generate_data_of_run, Hrun |].
  split; [rewrite Hn, <- (Permutation_length Hperm), range_length; lia |].
  split; [lia |]. split; [lia |]. split; [lia |]. split; [lia |].
  rewrite Hr, Hflags, length_app, !repeat_length. lia.
Qed.

Lemma reported_counts_witness :
  (exists w, generate_data small_config = Ok w /\
             removes w = Z.of_nat (length (remove_is_hit w))) /\
  (exists w, generate_data mismatched_config = Ok w /\
             removes w <> Z.of_nat (length (remove_is_hit w))).
Proof.
  split.
  - destruct (reported_counts small_config)
      as (w & Hrun & _ & _ & _ & _ & _ & Hiff).
    + reflexivity.
    + discriminate.
    + discriminate.
    + discriminate.
    + discriminate.
    + exists w. split; [exact Hrun |]. apply Hiff. reflexivity.
  - destruct (reported_counts mismatched_config)
      as (w & Hrun & _ & _ & _ & _ & _ & Hiff).
    + reflexivity.
    + discriminate.
    + discriminate.
    + discriminate.
    + discriminate.
    + exists w. split; [exact Hrun |]. intros E. apply Hiff in E. discriminate E.
Defined.

(** X9.  For a positive [N], every index the workload carries is a valid
    position of [insert_keys] (the update indices and the index of every
    remove or search hit), and the key of every remove or search miss is
    not among [insert_keys]. *)
Theorem workload_targets (c : Config) :
  0 < N c ->
  exists w,
    generate_data c = Ok w /\
    Forall (fun i => exists k, py_getitem (insert_keys w) i = Ok k)
           (update_indices w) /\
    length (remove_ops w) = length (remove_is_hit w) /\
    Forall (well_targeted (insert_keys w)) (remove_ops w) /\
    length (search_ops w) = length (search_is_hit w) /\
    Forall (well_targeted (insert_keys w)) (search_ops w).
Proof.
  intros HN.
  destruct (generate_data_run_total c HN)
    as (w & r & r1 & r2 & pre & rsegs & ssegs & Hrun & _ & _ & _ & Hperm
        & _ & Hall & _ & _ & Hri & Hrk & Hsh & Hsi & Hsk & _ & Hre & Hse & _).
  assert (Hlen : Z.of_nat (length (insert_keys w)) = N c).
  { rewrite <- (Permutation_length Hperm), range_length. lia. }
  assert (Hhit : forall i, 0 <= i < N c ->
                           exists k, py_getitem (insert_keys w) i = Ok k).
  { intros i Hi. destruct (py_getitem_in_range (insert_keys w) i) as (k & _ & Hk);
      [lia |]. exists k. exact Hk. }
  assert (Hmiss : forall key, ~ (0 <= key < N c) -> ~ In key (insert_keys w)).
  { intros key Hk Hin. apply Hk, range_In.
    apply (Permutation_in _ (Permutation_sym Hperm)), Hin. }
  exists w. split; [eapply generate_data_of_run, Hrun |].
  split; [eapply Forall_impl; [| exact Hall]; intros i Hi; apply Hhit, Hi |].
  split; [apply zip3_length; assumption |].
  split.
  { eapply Forall2_Forall_l; [| exact Hre].
    intros [hit [idx key]] seg. cbn. destruct hit.
    - intros [_ Hidx]. apply Hhit, Hidx.
    - intros (d & _ & _ & Hkey). apply Hmiss. lia. }
  split; [apply zip3_length; congruence |].
  eapply Forall2_Forall_l; [| exact Hse].
  intros [hit [idx key]] seg. cbn.
  intros (d0 & f & rest & _ & _ & _ & H). destruct hit.
  - destruct H as [_ Hidx]. apply Hhit, Hidx.
  - destruct H as (d & _ & _ & Hkey). apply Hmiss, Hkey.
Qed.

Lemma workload_targets_witness :
  exists w, generate_data small_config = Ok w /\
            Forall (well_targeted (insert_keys w)) (remove_ops w).
Proof.
  destruct (workload_targets small_config) as (w & Hrun & _ & _ & Hr & _).
  - reflexivity.
  - exists w. split; [exact Hrun | exact Hr].
Defined.

(** ** Position in the stream *)

Lemma iter_advance_step (k m : nat) s :
  Nat.iter (m * k) advance (Nat.iter k advance s) = Nat.iter (S m * k) advance s.
Proof.
  rewrite <- Nat.iter_add. f_equal. lia.
Qed.

Lemma comprehension_state {A B} (f : A -> M B) (k : nat) :
  (forall x r y r', f x r = Ok (y, r') -> state r' = Nat.iter k advance (state r)) ->
  forall xs r ys r', comprehension xs f r = Ok (ys, r') ->
    state r' = Nat.iter (length xs * k) advance (state r).
Proof.
  intros Hf. induction xs as [|x xs IH]; intros r ys r' H; cbn [comprehension] in H.
  - unfold ret in H. injection H as _ <-. reflexivity.
  - apply bind_inv in H. destruct H as (y & r1 & H1 & H).
    apply bind_inv in H. destruct H as (ys' & r2 & H2 & H).
    unfold ret in H. injection H as _ <-.
    rewrite (IH _ _ _ H2), (Hf _ _ _ _ H1). apply iter_advance_step.
Qed.

Lemma for_each_state {A S} (body : A -> S -> M S) (k : nat) : forall xs,
  (forall x s r s' r', In x xs -> body x s r = Ok (s', r') ->
                       state r' = Nat.iter k advance (state r)) ->
  forall s r s' r', for_each xs body s r = Ok (s', r') ->
    state r' = Nat.iter (length xs * k) advance (state r).
Proof.
  induction xs as [|x xs IH]; intros Hbody s r s' r' H; cbn [for_each] in H.
  - unfold ret in H. injection H as _ <-. reflexivity.
  - apply bind_inv in H. destruct H as (s1 & r1 & H1 & H).
    rewrite (IH (fun y s0 r0 s0' r0' Hy => Hbody y s0 r0 s0' r0' (or_intror Hy))
               _ _ _ _ H).
    rewrite (Hbody x _ _ _ _ (or_introl eq_refl) H1). apply iter_advance_step.
Qed.

Lemma rand_char_state r ch r' :
  rand_char r = Ok (ch, r') -> state r' = Nat.iter 1 advance (state r).
Proof. rewrite rand_char_run. intros H. injection H as _ <-. reflexivity. Qed.

Lemma next_usize_state bound r v r' :
  1 < bound -> next_usize bound r = Ok (v, r') ->
  state r' = Nat.iter 1 advance (state r).
Proof.
  intros Hb. rewrite next_usize_high by exact Hb.
  intros H. injection H as _ <-. reflexivity.
Qed.

Lemma draw_miss_key_state c r key r' :
  draw_miss_key c r = Ok (key, r') -> state r' = Nat.iter 1 advance (state r).
Proof.
  unfold draw_miss_key, bind, lift, ret, py_mod. rewrite next_u64_run.
  destruct (N c =? 0); [discriminate |].
  intros H. injection H as _ <-. reflexivity.
Qed.

Lemma remove_hit_step_state c s r s' r' :
  1 < N c -> remove_hit_step c s r = Ok (s', r') ->
  state r' = Nat.iter 1 advance (state r).
Proof.
  intros HN H. unfold remove_hit_step in H.
  apply bind_inv in H. destruct H as (v & r1 & H1 & H).
  unfold ret in H. injection H as _ <-. eapply next_usize_state; eassumption.
Qed.

Lemma remove_miss_step_state c s r s' r' :
  remove_miss_step c s r = Ok (s', r') ->
  state r' = Nat.iter 1 advance (state r).
Proof.
  intros H. unfold remove_miss_step in H.
  apply bind_inv in H. destruct H as (v & r1 & H1 & H).
  unfold ret in H. injection H as _ <-. eapply draw_miss_key_state; eassumption.
Qed.

Lemma search_step_state c s r s' r' :
  1 < N c -> search_step c s r = Ok (s', r') ->
  state r' = Nat.iter 2 advance (state r).
Proof.
  intros HN H. unfold search_step in H.
  rewrite (bind_Ok _ _ _ _ _ (next_f64_run r)) in H.
  destruct (PrimFloat.ltb _ _).
  - apply bind_inv in H. destruct H as (v & r1 & H1 & H).
    unfold ret in H. injection H as _ <-.
    rewrite (next_usize_state _ _ _ _ HN H1). reflexivity.
  - apply bind_inv in H. destruct H as (v & r1 & H1 & H).
    unfold ret in H. injection H as _ <-.
    rewrite (draw_miss_key_state _ _ _ _ H1). reflexivity.
Qed.

Lemma shuffle_state {A} (array array' : list A) r r' :
  shuffle array r = Ok (array', r') ->
  state r' = Nat.iter (length array - 1) advance (state r).
Proof.
  intros H. unfold shuffle in H.
  apply for_each_state with (k := 1%nat) in H.
  - rewrite H. f_equal.
    rewrite range_down_to_one, length_rev, length_map, length_seq. lia.
  - intros i a g a' g' Hi Hb.
    pose proof (range_down_bounds (length array)) as Hall.
    rewrite Forall_forall in Hall. specialize (Hall i Hi).
    apply bind_inv in Hb. destruct Hb as (j & g1 & H1 & Hb).
    apply next_usize_state in H1; [| lia].
    unfold lift in Hb. destruct (swap_items a i j); [| discriminate].
    injection Hb as _ <-. exact H1.
Qed.

(** X10.  With more than one key in the domain, a build makes a number of
    [next_u64] draws fixed by the configuration counts alone: the generator
    it leaves is in the state reached from the seeded state by [total_draws]
    state updates, whatever the hit rate and however the search entries
    fall (a search hit and a search miss cost two draws each). *)
Theorem build_stream_position (c : Config) :
  1 < N c ->
  exists w r,
    generate_data_run c = Ok (w, r) /\
    state r = Nat.iter (total_draws c) advance
                (state (XorShift64Star_init (SEED c))).
Proof.
  intros HN.
  destruct (generate_data_run_total c ltac:(lia))
    as (w & r & _ & _ & _ & _ & _ & Hrun & _).
  destruct (generate_data_run_phases c w r Hrun)
    as (r1 & r2 & r4 & r5 & rem1 & r6 & rem2 & r7 & sea
        & H1 & H2 & H4 & H5 & H6 & H7 & H8).
  exists w, r. split; [exact Hrun |].
  apply comprehension_state with (k := 1%nat) in H1;
    [| intros x g y g'; apply rand_char_state].
  apply shuffle_state in H2.
  apply comprehension_state with (k := 1%nat) in H4;
    [| intros x g y g'; apply next_usize_state; exact HN].
  apply comprehension_state with (k := 1%nat) in H5;
    [| intros x g y g'; apply rand_char_state].
  apply for_each_state with (k := 1%nat) in H6;
    [| intros x s g s' g' _; apply remove_hit_step_state; exact HN].
  apply for_each_state with (k := 1%nat) in H7;
    [| intros x s g s' g' _; apply remove_miss_step_state].
  apply for_each_state with (k := 2%nat) in H8;
    [| intros x s g s' g' _; apply search_step_state; exact HN].
  rewrite !range_length in *.
  rewrite H8, H7, H6, H5, H4, H2, H1, <- !Nat.iter_add.
  f_equal. unfold total_draws. lia.
Qed.

Lemma build_stream_position_witness :
  exists w r,
    generate_data_run small_config = Ok (w, r) /\
    state r = Nat.iter 51 advance 0xDEADBEEFCAFEBABE.
Proof.
  destruct (build_stream_position small_config) as (w & r & Hrun & Hst).
  - reflexivity.
  - exists w, r. split; [exact Hrun | exact Hst].
Defined.

(** ** The payload characters and the raw stream *)

Lemma chars_of_stream : forall (xs : list Z) r g,
  state g = state r ->
  exists outs g' r',
    next_u64_seq (length xs) g = Ok (outs, g') /\
    comprehension xs (fun _ => rand_char) r = Ok (map letter outs, r') /\
    state g' = state r'.
Proof.
  induction xs as [|x xs IH]; intros r g E.
  - exists [], g, r. repeat split. exact E.
  - cbn [length]. rewrite next_u64_seq_succ. cbn [comprehension].
    rewrite (bind_Ok _ _ _ _ _ (rand_char_run r)). rewrite E.
    destruct (IH (mkRng (advance (state r))
                    (log r ++ [EvU64 (Z.land (advance (state r) * STAR) MASK64);
                               EvChar (letter (Z.land (advance (state r) * STAR) MASK64))]))
                 (mkRng (advance (state r))
                    (log g ++ [EvU64 (Z.land (advance (state r) * STAR) MASK64)]))
                 eq_refl)
      as (outs & g' & r' & Hg & Hr & Hst).
    rewrite Hg, (bind_Ok _ _ _ _ _ Hr).
    eexists. exists g', r'. split; [reflexivity |]. split; [reflexivity | exact Hst].
Qed.

(** X11.  The insert payload is the head of the raw stream: for a positive
    [N], [insert_data] is the list of letters [chr(ord('a') + d % 26)] of
    the first [N] values [d] that [next_u64] yields from the seeded
    generator, in order. *)
Theorem insert_data_from_stream (c : Config) :
  0 < N c ->
  exists w outs g,
    generate_data c = Ok w /\
    next_u64_seq (Z.to_nat (N c)) (XorShift64Star_init (SEED c)) = Ok (outs, g) /\
    insert_data w = map letter outs.
Proof.
  intros HN.
  destruct (generate_data_run_total c HN)
    as (w & r & r1 & _ & _ & _ & _ & Hrun & Hdata & _).
  destruct (chars_of_stream (range (N c)) (XorShift64Star_init (SEED c))
              (XorShift64Star_init (SEED c)) eq_refl)
    as (outs & g & r' & Hg & Hr & _).
  rewrite range_length in Hg. rewrite Hdata in Hr. injection Hr as Hins _.
  exists w, outs, g. split; [eapply generate_data_of_run, Hrun |].
  split; [exact Hg | exact Hins].
Qed.

Lemma insert_data_from_stream_witness :
  exists w outs g,
    generate_data small_config = Ok w /\
    next_u64_seq 10 (XorShift64Star_init 0xDEADBEEFCAFEBABE) = Ok (outs, g) /\
    insert_data w = map letter outs.
Proof.
  apply (insert_data_from_stream small_config). reflexivity.
Defined.

(** * The chunked emission of the writers *)

Lemma py_slice_chunk {A} (xs : list A) (i width : Z) :
  0 <= i -> 0 < width ->
  py_slice xs i (i + width) = firstn (Z.to_nat width) (skipn (Z.to_nat i) xs).
Proof.
  intros Hi Hw. unfold py_slice, slice_bound.
  destruct (Z.ltb_spec i 0); [lia |].
  destruct (Z.ltb_spec (i + width) 0); [lia |].
  set (len := Z.of_nat (length xs)).
  destruct (Z.le_gt_cases (i + width) len) as [Hfit | Hover].
  - rewrite !Z.min_l by lia. f_equal. lia.
  - rewrite (Z.min_r (i + width)) by lia.
    destruct (Z.le_gt_cases i len) as [Hin | Hout].
    + rewrite Z.min_l by lia.
      rewrite !firstn_all2; [reflexivity | |]; rewrite length_skipn; lia.
    + rewrite Z.min_r by lia. rewrite Z.sub_diag. cbn [Z.to_nat firstn].
      rewrite (skipn_all2 xs) by lia. destruct (Z.to_nat width); reflexivity.
Qed.

Lemma concat_chunks {A} (w : nat) : forall (m : nat) (xs : list A),
  (length xs <= m * w)%nat ->
  concat (map (fun k => firstn w (skipn (k * w) xs)) (seq 0 m)) = xs.
Proof.
  induction m as [|m IH]; intros xs Hlen.
  - destruct xs; [reflexivity | cbn in Hlen; lia].
  - cbn [seq map concat]. rewrite <- seq_shift, map_map.
    cbn [Nat.mul skipn].
    etransitivity; [| apply (firstn_skipn w xs)]. f_equal.
    etransitivity; [| apply (IH (skipn w xs)); rewrite length_skipn; lia].
    f_equal. apply map_ext. intros k. rewrite skipn_skipn. f_equal. f_equal. lia.
Qed.

Lemma removelast_map_seq {B} (f : nat -> B) (m : nat) :
  removelast (map f (seq 0 m)) = map f (seq 0 (m - 1)).
Proof.
  destruct m as [|m]; [reflexivity |].
  rewrite seq_S, map_app. cbn [map]. rewrite removelast_last.
  replace (S m - 1)%nat with m by lia. reflexivity.
Qed.

(** X12.  The loop that both writers run over each list of the workload
    (slices [xs[i:i+width]] for [i] in [range(0, len(xs), width)], one line
    written per slice) emits every element exactly once and in order: the
    slices put end to end are the list itself; there are
    [ceil(len(xs) / width)] of them, none empty and none longer than
    [width], and all but the last have exactly [width] elements. *)
Theorem write_chunked_covers {A T} (line : list A -> T) (width : Z) (xs : list A) :
  0 < width ->
  exists chunks,
    write_chunked line width xs = map line chunks /\
    concat chunks = xs /\
    Z.of_nat (length chunks) = (Z.of_nat (length xs) + width - 1) / width /\
    Forall (fun ch => 1 <= Z.of_nat (length ch) <= width) chunks /\
    Forall (fun ch => Z.of_nat (length ch) = width) (removelast chunks).
Proof.
  intros Hw.
  set (len := Z.of_nat (length xs)).
  set (q := (len + width - 1) / width).
  set (w := Z.to_nat width). set (m := Z.to_nat q).
  assert (Hq1 : width * q <= len + width - 1) by (apply Z.mul_div_le; lia).
  assert (Hq2 : len + width - 1 < width * Z.succ q)
    by (apply Z.mul_succ_div_gt; lia).
  assert (Hq0 : 0 <= q) by (apply Z.div_pos; lia).
  assert (Hcover : (length xs <= m * w)%nat) by nia.
  assert (Hlast : forall k, (k < m)%nat -> (k * w < length xs)%nat) by (intros k Hk; nia).
  exists (map (fun k => firstn w (skipn (k * w) xs)) (seq 0 m)).
  split.
  { unfold write_chunked, range_step. rewrite !map_map.
    replace (Z.of_nat (length xs) - 0 + width - 1) with (len + width - 1) by lia.
    fold q. fold m. apply map_ext. intros k. f_equal.
    rewrite py_slice_chunk by lia. fold w. f_equal. f_equal. nia. }
  split; [apply concat_chunks, Hcover |].
  split; [rewrite length_map, length_seq; lia |].
  split.
  - apply Forall_forall. intros ch Hch. apply in_map_iff in Hch.
    destruct Hch as (k & <- & Hk). apply in_seq in Hk.
    specialize (Hlast k ltac:(lia)).
    rewrite length_firstn, length_skipn. lia.
  - rewrite removelast_map_seq. apply Forall_forall. intros ch Hch.
    apply in_map_iff in Hch. destruct Hch as (k & <- & Hk). apply in_seq in Hk.
    specialize (Hlast (S k) ltac:(lia)).
    rewrite length_firstn, length_skipn. nia.
Qed.

Lemma write_chunked_covers_witness :
  exists chunks,
    write_chunked (@length Z) 10 (range 23) = map (@length Z) chunks /\
    concat chunks = range 23 /\
    Z.of_nat (length chunks) = 3.
Proof.
  destruct (write_chunked_covers (@length Z) 10 (range 23))
    as (chunks & H1 & H2 & H3 & _).
  - reflexivity.
  - exists chunks. split; [exact H1 |]. split; [exact H2 | exact H3].
Defined.

(** * A domain of one key *)

Lemma Forall_combine {A} (P Q R : A -> Prop) (l : list A) :
  (forall a, P a -> Q a -> R a) -> Forall P l -> Forall Q l -> Forall R l.
Proof.
  intros H HP HQ. rewrite Forall_forall in *. intros a Ha.
  apply H; [apply HP | apply HQ]; exact Ha.
Qed.

(** X13.  With [N = 1] the only key is 0: [insert_keys] is [[0]], every
    update index and every index of a remove or search entry is 0, every
    hit carries the miss key 0 and every miss carries the key 2. *)
Theorem single_key_domain (c : Config) :
  N c = 1 ->
  exists w,
    generate_data c = Ok w /\
    insert_keys w = [0] /\
    Forall (fun i => i = 0) (update_indices w) /\
    Forall (fun e : bool * (Z * Z) =>
              fst (snd e) = 0 /\ snd (snd e) = if fst e then 0 else 2)
           (remove_ops w) /\
    Forall (fun e : bool * (Z * Z) =>
              fst (snd e) = 0 /\ snd (snd e) = if fst e then 0 else 2)
           (search_ops w).
Proof.
  intros HN.
  destruct (generate_data_run_total c ltac:(lia))
    as (w & r & r1 & r2 & pre & rsegs & ssegs & Hrun & _ & _ & _ & Hperm
        & _ & Hall & _ & _ & _ & _ & _ & _ & _ & _ & Hre & Hse & Hpr & Hps & _).
  set (P := fun e : bool * (Z * Z) =>
              if fst e then fst (snd e) = 0 else snd (snd e) = 2).
  assert (HPQ : forall e, P e -> padded e ->
                  fst (snd e) = 0 /\ snd (snd e) = if fst e then 0 else 2).
  { intros [[|] [idx key]]; unfold P; cbn; intros H1 H2; split; assumption. }
  exists w. split; [eapply generate_data_of_run, Hrun |].
  split; [apply Permutation_length_1_inv; rewrite HN in Hperm; exact Hperm |].
  split; [eapply Forall_impl; [| exact Hall]; cbn; intros; lia |].
  split.
  - apply (Forall_combine P padded _ _ HPQ); [| exact Hpr].
    eapply Forall2_Forall_l; [| exact Hre].
    intros [[|] [idx key]] seg; unfold P; cbn; rewrite HN.
    + intros [_ H]. lia.
    + intros (d & _ & -> & _). rewrite Z.mod_1_r. reflexivity.
  - apply (Forall_combine P padded _ _ HPQ); [| exact Hps].
    eapply Forall2_Forall_l; [| exact Hse].
    intros [[|] [idx key]] seg; unfold P; cbn; rewrite HN;
      intros (d0 & f & rest & _ & _ & _ & H).
    + destruct H as [_ H]. lia.
    + destruct H as (d & _ & -> & _). rewrite Z.mod_1_r. reflexivity.
Qed.

Lemma single_key_domain_witness :
  exists w, generate_data (mkConfig 1 7 2 3 2 1 3 0.5%float) = Ok w /\
            insert_keys w = [0] /\ remove_miss_keys w = [0; 0; 2].
Proof.
  destruct (single_key_domain (mkConfig 1 7 2 3 2 1 3 0.5%float))
    as (w & Hrun & Hk & _).
  - reflexivity.
  - exists w. split; [exact Hrun |]. split; [exact Hk |].
    assert (E : generate_data (mkConfig 1 7 2 3 2 1 3 0.5%float) = Ok w) by exact Hrun.
    vm_compute in E. injection E as <-. reflexivity.
Defined.
